(** * PPO for continuous control: a shallow embedding of the two training scripts

    The repository holds two scripts, [ppo_mujoco_humanoid.py] (diagonal
    Gaussian policy) and [ppo_mujoco_humanoid_beta.py] (Beta policy rescaled
    to the action bounds).  This development embeds the algorithmic core of
    both: argument post-processing, the advantage estimator, the minibatch
    schedule, the value loss, the Beta agent's action rescaling and its
    parameter check, and the control flow of the update cycle.

    Numbers.  Tensor entries are modelled as real numbers: rounding is
    idealised, arithmetic is exact.  Where the scripts can produce or test
    for non-finite values (division by a zero range, [isnan], [isinf]) the
    entries are extended reals, see [Module XFloat]: arithmetic on finite
    entries is still that of the reals, without rounding and without
    overflow.  What rounding and overflow do to the action rescaling is
    computed with binary32 numbers, see [Module Binary32].

    Opaque collaborators.  Neural networks, the simulator, the random
    generator and the metrics writer are not part of the embedding; what
    they return is an input of the embedded function. *)

From Stdlib Require Import Reals Lra ZArith Lia.
From stdpp Require Import base option strings list.

#[local] Open Scope R_scope.

(** ** Tensors

    One-dimensional tensors are lists of reals.  Elementwise operations
    follow torch; [scalar]/[row] implements the broadcasting of a Python
    number against a one-dimensional tensor. *)
Module Tensor.

Definition tsum (v : list R) : R := foldr Rplus 0 v.

(** [v.mean()] *)
Definition mean (v : list R) : R := tsum v / INR (length v).

(** [torch.clamp(x, lo, hi)]: [min(max(x, lo), hi)], so that [hi] wins
    when [lo > hi]. *)
Definition clamp (x lo hi : R) : R := Rmin (Rmax x lo) hi.

Definition vadd (u v : list R) : list R := zip_with Rplus u v.
Definition vsub (u v : list R) : list R := zip_with Rminus u v.
Definition vmax (u v : list R) : list R := zip_with Rmax u v.
Definition vpow2 (u : list R) : list R := (λ x, x ^ 2) <$> u.
Definition vclamp (u : list R) (lo hi : R) : list R :=
  (λ x, clamp x lo hi) <$> u.

(** [b[inds]] for an index array: every index must be in range, an index
    out of range raises (here: [None]). *)
Definition gather (b : list R) (inds : list nat) : option (list R) :=
  mapM (λ i, b !! i) inds.

(** A Python number or a one-dimensional tensor. *)
Inductive tensor : Type :=
| scalar (r : R)
| row (v : list R).

Definition lift2 (f : R → R → R) (a b : tensor) : tensor :=
  match a, b with
  | scalar x, scalar y => scalar (f x y)
  | scalar x, row v => row (f x <$> v)
  | row u, scalar y => row ((λ x, f x y) <$> u)
  | row u, row v => row (zip_with f u v)
  end.

Definition tadd := lift2 Rplus.
Definition tsub := lift2 Rminus.
Definition tmul := lift2 Rmult.

(** Storing a tensor into a slot of [n] entries, [buf[t] = x]. *)
Definition to_row (n : nat) (x : tensor) : list R :=
  match x with
  | scalar r => replicate n r
  | row v => v
  end.

(** Entry [(t, n)] of a two-dimensional buffer, 0 outside of it. *)
Definition at2 (m : list (list R)) (t n : nat) : R :=
  default 0 (m !! t ≫= λ r, r !! n).

(** Entry [n] of a tensor after broadcasting. *)
Definition at1 (x : tensor) (n : nat) : R :=
  match x with
  | scalar r => r
  | row v => default 0 (v !! n)
  end.

Definition shape2 (T N : nat) (m : list (list R)) : Prop :=
  length m = T ∧ Forall (λ r, length r = N) m.

(** A tensor that broadcasts against rows of [n] entries. *)
Definition broadcasts (n : nat) (x : tensor) : Prop :=
  match x with
  | scalar _ => True
  | row v => length v = n
  end.

End Tensor.

Import Tensor.

Declare Scope tensor_scope.
Delimit Scope tensor_scope with T.
Infix "+" := tadd : tensor_scope.
Infix "-" := tsub : tensor_scope.
Infix "*" := tmul : tensor_scope.

(** ** The value loss of one minibatch

    [newvalue] is the critic's output on the minibatch (after
    [view(-1)]), [b_returns] and [b_values] are the flattened return
    targets and collection-time values, [mb_inds] the minibatch indices. *)
Module Gaussian.

Definition value_loss (clip_vloss : bool) (clip_coef : R)
    (newvalue b_returns b_values : list R) (mb_inds : list nat) : option R :=
  if clip_vloss then
    mb_returns ← gather b_returns mb_inds;
    let v_loss_unclipped := vpow2 (vsub newvalue mb_returns) in
    mb_values ← gather b_values mb_inds;
    let v_clipped :=
      vadd mb_values (vclamp (vsub newvalue mb_values) (- clip_coef) clip_coef) in
    let v_loss_clipped := vpow2 (vsub v_clipped mb_returns) in
    let v_loss_max := vmax v_loss_unclipped v_loss_unclipped in
    Some (0.5 * mean v_loss_max)
  else
    mb_returns ← gather b_returns mb_inds;
    Some (0.5 * mean (vpow2 (vsub newvalue mb_returns))).

End Gaussian.

Module Beta.

Definition value_loss (clip_vloss : bool) (clip_coef : R)
    (newvalue b_returns b_values : list R) (mb_inds : list nat) : option R :=
  if clip_vloss then
    mb_returns ← gather b_returns mb_inds;
    let v_loss_unclipped := vpow2 (vsub newvalue mb_returns) in
    mb_values ← gather b_values mb_inds;
    let v_clipped :=
      vadd mb_values (vclamp (vsub newvalue mb_values) (- clip_coef) clip_coef) in
    let v_loss_clipped := vpow2 (vsub v_clipped mb_values) in
    let v_loss_max := vmax v_loss_unclipped v_loss_unclipped in
    Some (0.5 * mean v_loss_max)
  else
    mb_values ← gather b_values mb_inds;
    Some (0.5 * mean (vpow2 (vsub newvalue mb_values))).

End Beta.

(** The value loss as section 4.4 of the specification words it, on the
    gathered minibatch: with clipping, half the mean of the larger of the
    unclipped and the clipped squared error; without, half the mean squared
    error against the return target. *)
Module ValueLossSpec.

Definition clipped (clip_coef : R) (newvalue mb_returns mb_values : list R) : R :=
  let unclipped_err := vpow2 (vsub newvalue mb_returns) in
  let v_clipped :=
    vadd mb_values (vclamp (vsub newvalue mb_values) (- clip_coef) clip_coef) in
  let clipped_err := vpow2 (vsub v_clipped mb_returns) in
  0.5 * mean (vmax unclipped_err clipped_err).

Definition unclipped (newvalue mb_returns : list R) : R :=
  0.5 * mean (vpow2 (vsub newvalue mb_returns)).

End ValueLossSpec.

(** ** Exceptions

    A computation that can raise is a [result]; [x ← m; k] sequences. *)
Inductive exn : Type :=
| ZeroDivisionError
| ValueError
| NameError (name : string).

Inductive result (A : Type) : Type :=
| Ok (a : A)
| Raise (e : exn).
Arguments Ok {A} a.
Arguments Raise {A} e.

#[global] Instance result_ret : MRet result := λ A a, Ok a.
#[global] Instance result_bind : MBind result := λ A B k m,
  match m with
  | Ok a => k a
  | Raise e => Raise e
  end.

(** ** Configuration

    [cli] holds the options as argparse delivers them; [parse_args] adds the
    two derived sizes.  Python's [//] on integers is floor division, which
    is [Z.div]; a zero divisor raises. *)
Module Config.

Record cli : Type := {
  total_timesteps : Z;
  track : bool;
  train_flag : bool;
  num_envs : Z;
  num_steps : Z;
  gae : bool;
  gamma : R;
  gae_lambda : R;
  num_minibatches : Z;
  update_epochs : Z;
  clip_coef : R;
  clip_vloss : bool;
  target_kl : option R
}.

Record args : Type := {
  opts : cli;
  batch_size : Z;
  minibatch_size : Z
}.

Definition floordiv (a b : Z) : result Z :=
  if decide (b = 0%Z) then Raise ZeroDivisionError else Ok (a `div` b)%Z.

Definition parse_args (c : cli) : result args :=
  let batch_size := (num_envs c * num_steps c)%Z in
  minibatch_size ← floordiv batch_size (num_minibatches c);
  Ok {| opts := c; batch_size := batch_size; minibatch_size := minibatch_size |}.

(** [args.train_flag = False] *)
Definition set_train_flag (a : args) (b : bool) : args :=
  let c := opts a in
  {| opts := {| total_timesteps := total_timesteps c; track := track c;
                train_flag := b; num_envs := num_envs c;
                num_steps := num_steps c; gae := gae c; gamma := gamma c;
                gae_lambda := gae_lambda c;
                num_minibatches := num_minibatches c;
                update_epochs := update_epochs c; clip_coef := clip_coef c;
                clip_vloss := clip_vloss c; target_kl := target_kl c |};
     batch_size := batch_size a;
     minibatch_size := minibatch_size a |}.

End Config.

(** ** Which part of the script runs

    The body of [__main__] is one conditional: the training branch (rollout,
    advantage estimation, optimisation, then saving) or the branch that
    only evaluates a stored model. *)
Inductive path : Type :=
| TrainingPath
| EvaluationPath
| NoPath.

Module GaussianMain.
Import Config.

Definition main (c : cli) : result path :=
  args ← parse_args c;
  let args := set_train_flag args false in
  if track (opts args) && train_flag (opts args)
  then Ok TrainingPath
  else Ok EvaluationPath.

End GaussianMain.

Module BetaMain.
Import Config.

(** The Beta script has no [--train-flag] and no [else]: with tracking off
    it does nothing. *)
Definition main (c : cli) : result path :=
  args ← parse_args c;
  if track (opts args) then Ok TrainingPath else Ok NoPath.

End BetaMain.

(** ** Advantage estimator

    The rollout buffers [rewards], [dones] and [values] are allocated with
    [num_steps] rows of [num_envs] entries; [next_value] and [next_done]
    describe the observation that follows the segment.  Both scripts have
    the same code. *)
Module Advantage.

(** Row [t] of a buffer. *)
Definition row_at (m : list (list R)) (t : nat) : tensor :=
  row (default [] (m !! t)).

Definition zeros_like (m : list (list R)) : list (list R) :=
  (λ r, replicate (length r) 0) <$> m.

Record gae_state : Type := {
  advantages : list (list R);
  lastgaelam : tensor
}.

Section Estimator.
Variables (gamma gae_lambda : R) (num_steps num_envs : nat).
Variables (rewards dones values : list (list R)).
Variables (next_value next_done : list R).

Definition gae_step (st : gae_state) (t : nat) : gae_state :=
  let '(nextnonterminal, nextvalues) :=
    if decide (t = (num_steps - 1)%nat)
    then ((scalar 1 - row next_done)%T, row next_value)
    else ((scalar 1 - row_at dones (t + 1))%T, row_at values (t + 1)) in
  let delta :=
    (row_at rewards t + scalar gamma * nextvalues * nextnonterminal
     - row_at values t)%T in
  let lastgaelam :=
    (delta + scalar gamma * scalar gae_lambda * nextnonterminal
             * lastgaelam st)%T in
  {| advantages := <[t := to_row num_envs lastgaelam]> (advantages st);
     lastgaelam := lastgaelam |}.

(** [for t in reversed(range(num_steps))] *)
Definition gae_loop : gae_state :=
  foldl gae_step
    {| advantages := zeros_like rewards; lastgaelam := scalar 0 |}
    (reverse (seq 0 num_steps)).

(** The GAE branch: [(advantages, returns)]. *)
Definition compute_gae : list (list R) * list (list R) :=
  let advantages := advantages gae_loop in
  (advantages, zip_with vadd advantages values).

Definition returns_step (returns : list (list R)) (t : nat) : list (list R) :=
  let '(nextnonterminal, next_return) :=
    if decide (t = (num_steps - 1)%nat)
    then ((scalar 1 - row next_done)%T, row next_value)
    else ((scalar 1 - row_at dones (t + 1))%T, row_at returns (t + 1)) in
  <[t := to_row num_envs
           (row_at rewards t + scalar gamma * nextnonterminal * next_return)%T]>
    returns.

(** The plain-return branch: [(advantages, returns)]. *)
Definition compute_returns : list (list R) * list (list R) :=
  let returns :=
    foldl returns_step (zeros_like rewards) (reverse (seq 0 num_steps)) in
  (zip_with vsub returns values, returns).

Definition estimate (gae : bool) : list (list R) * list (list R) :=
  if gae then compute_gae else compute_returns.

End Estimator.

End Advantage.

(** ** Minibatch schedule

    The optimiser runs after the buffers were allocated with [num_steps]
    rows of [num_envs] entries, which needs both to be non-negative: the
    batch size is a natural number here.  The minibatch size is whatever
    [parse_args] computed. *)
Module Schedule.

(** [np.arange(n)] *)
Definition arange (n : nat) : list nat := seq 0 n.

(** [range(0, stop, step)] for [stop >= 0]: a zero step raises, a negative
    step gives the empty range, a positive step gives the multiples of
    [step] below [stop]. *)
Definition py_range0 (stop : nat) (step : Z) : result (list nat) :=
  if decide (step = 0%Z) then Raise ValueError
  else if decide (step < 0)%Z then Ok []
  else
    let m := Z.to_nat step in
    Ok ((λ k, k * m)%nat <$> seq 0 ((stop + m - 1) `div` m)%nat).

(** [l[start:end]] for [0 <= start <= end]: the slice stops at the end of
    the list. *)
Definition slice (l : list nat) (start end_ : nat) : list nat :=
  take (end_ - start) (drop start l).

(** The [mb_inds] of one epoch, in order. *)
Definition minibatches (b_inds : list nat) (batch_size : nat)
    (minibatch_size : Z) : result (list (list nat)) :=
  starts ← py_range0 batch_size minibatch_size;
  Ok ((λ start, slice b_inds start (start + Z.to_nat minibatch_size))
        <$> (starts : list nat)).

End Schedule.

(** ** The update cycle

    The forward pass, the losses and the Adam step of one minibatch are one
    opaque step of the collaborators; it reports the five diagnostics that
    the script keeps in variables.  [np.random.shuffle] permutes the index
    array in place. *)
Module Optimizer.
Import Config Schedule.

Record mb_stats : Type := {
  v_loss : R;
  pg_loss : R;
  entropy_loss : R;
  old_approx_kl : R;
  approx_kl : R
}.

(** The flattened batch: what the optimiser reads. *)
Record batch : Type := {
  b_obs : list (list R);
  b_logprobs : list R;
  b_actions : list (list R);
  b_advantages : list R;
  b_returns : list R;
  b_values : list R
}.

(** The rollout buffers of one segment, with the bootstrap inputs. *)
Record segment : Type := {
  obs : list (list (list R));
  actions : list (list (list R));
  logprobs : list (list R);
  rewards : list (list R);
  dones : list (list R);
  values : list (list R);
  next_value : list R;
  next_done : list R
}.

(** The variables of the script that are first assigned inside the epoch
    loop and read after it.  [None] is an unbound name.  The five
    diagnostics are assigned together by every minibatch;
    [explained_var] holds [None] for [np.nan]. *)
Record locals : Type := {
  stats : option mb_stats;
  explained_var : option (option R)
}.

Record metrics : Type := {
  m_value_loss : R;
  m_policy_loss : R;
  m_entropy : R;
  m_old_approx_kl : R;
  m_approx_kl : R;
  m_explained_variance : option R
}.

(** [np.var] *)
Definition var (y : list R) : R := mean ((λ x, (x - mean y) ^ 2) <$> y).

Definition explained_variance (y_pred y_true : list R) : option R :=
  let var_y := var y_true in
  if Req_dec_T var_y 0 then None
  else Some (1 - var (vsub y_true y_pred) / var_y).

Inductive flow : Type := Continue | Break.

Section Loop.
Context {rng agent env : Type}.

Record collaborators : Type := {
  shuffle : rng → list nat → rng * list nat;
  minibatch_step : batch → agent → list nat → agent * mb_stats;
  rollout : agent → env → env * segment
}.

Record state : Type := {
  st_agent : agent;
  st_rng : rng;
  st_env : env;
  st_inds : list nat;
  st_vars : locals;
  st_log : list metrics
}.

Variable C : collaborators.
Variable a : args.

Definition run_minibatches (b : batch) (ag : agent) (s : option mb_stats)
    (mbs : list (list nat)) : agent * option mb_stats :=
  foldl (λ '(ag, _) mb_inds,
           let '(ag', s') := minibatch_step C b ag mb_inds in (ag', Some s'))
        (ag, s) mbs.

(** One pass of [for epoch in range(args.update_epochs)]. *)
Definition epoch (b : batch) (s : state) : result (flow * state) :=
  let '(g, inds) := shuffle C (st_rng s) (st_inds s) in
  mbs ← minibatches inds (Z.to_nat (batch_size a)) (minibatch_size a);
  let '(ag, stats') := run_minibatches b (st_agent s) (stats (st_vars s)) mbs in
  let s' explained :=
    {| st_agent := ag; st_rng := g; st_env := st_env s; st_inds := inds;
       st_vars := {| stats := stats'; explained_var := explained |};
       st_log := st_log s |} in
  stop ← match target_kl (opts a) with
         | None => Ok false
         | Some tkl =>
             match stats' with
             | None => Raise (NameError "approx_kl")
             | Some d => Ok (if Rgt_dec (approx_kl d) tkl then true else false)
             end
         end;
  if stop : bool then Ok (Break, s' (explained_var (st_vars s)))
  else Ok (Continue,
           s' (Some (explained_variance (b_values b) (b_returns b)))).

Fixpoint epochs (n : nat) (b : batch) (s : state) : result state :=
  match n with
  | O => Ok s
  | S n' =>
      r ← epoch b s;
      match r with
      | (Break, s') => Ok s'
      | (Continue, s') => epochs n' b s'
      end
  end.

(** The [writer.add_scalar] calls after the epoch loop. *)
Definition emit_metrics (l : locals) : result metrics :=
  d ← match stats l with
      | None => Raise (NameError "v_loss")
      | Some d => Ok d
      end;
  ev ← match explained_var l with
       | None => Raise (NameError "explained_var")
       | Some ev => Ok ev
       end;
  Ok {| m_value_loss := v_loss d; m_policy_loss := pg_loss d;
        m_entropy := entropy_loss d; m_old_approx_kl := old_approx_kl d;
        m_approx_kl := approx_kl d; m_explained_variance := ev |}.

(** [x.reshape(-1)] of a two-dimensional buffer and the advantage
    estimator: the flattened batch of a segment. *)
Definition flatten (g : segment) : batch :=
  let '(advantages, returns) :=
    Advantage.estimate (gamma (opts a)) (gae_lambda (opts a))
      (Z.to_nat (num_steps (opts a))) (Z.to_nat (num_envs (opts a)))
      (rewards g) (dones g) (values g) (next_value g) (next_done g)
      (gae (opts a)) in
  {| b_obs := concat (obs g); b_logprobs := concat (logprobs g);
     b_actions := concat (actions g); b_advantages := concat advantages;
     b_returns := concat returns; b_values := concat (values g) |}.

(** The state in which the epoch loop of a cycle starts:
    [b_inds = np.arange(args.batch_size)], everything else as the rollout
    left it. *)
Definition begin_cycle (s : state) (e : env) : state :=
  {| st_agent := st_agent s; st_rng := st_rng s; st_env := e;
     st_inds := arange (Z.to_nat (batch_size a));
     st_vars := st_vars s; st_log := st_log s |}.

Definition log_metrics (s : state) (m : metrics) : state :=
  {| st_agent := st_agent s; st_rng := st_rng s; st_env := st_env s;
     st_inds := st_inds s; st_vars := st_vars s;
     st_log := st_log s ++ [m] |}.

(** One pass of [for update in range(1, num_updates + 1)]: rollout,
    advantage estimation, the epoch loop, metric emission. *)
Definition update_cycle (s : state) : result state :=
  let '(e, g) := rollout C (st_agent s) (st_env s) in
  s1 ← epochs (Z.to_nat (update_epochs (opts a))) (flatten g) (begin_cycle s e);
  m ← emit_metrics (st_vars s1);
  Ok (log_metrics s1 m).

Fixpoint cycles (n : nat) (s : state) : result state :=
  match n with
  | O => Ok s
  | S n' => s' ← update_cycle s; cycles n' s'
  end.

(** No variable of the epoch loop is bound when the script starts. *)
Definition initial_state (ag : agent) (g : rng) (e : env) : state :=
  {| st_agent := ag; st_rng := g; st_env := e; st_inds := [];
     st_vars := {| stats := None; explained_var := None |};
     st_log := [] |}.

(** The training branch up to saving the model. *)
Definition train (ag : agent) (g : rng) (e : env) : result state :=
  num_updates ← floordiv (total_timesteps (opts a)) (batch_size a);
  cycles (Z.to_nat num_updates) (initial_state ag g e).

End Loop.

End Optimizer.

(** ** Extended reals

    Entries of the Beta agent's tensors: a real number, an infinity or NaN.
    The special cases follow IEEE 754; finite results are exact (no
    rounding, no overflow) and a zero is a positive zero. *)
Module XFloat.

Inductive xfloat : Type :=
| Fin (r : R)
| PInf
| NInf
| NaN.

Definition isnan (x : xfloat) : bool :=
  match x with NaN => true | _ => false end.

Definition isinf (x : xfloat) : bool :=
  match x with PInf | NInf => true | _ => false end.

Definition inf (positive : bool) : xfloat := if positive then PInf else NInf.

Definition xneg (x : xfloat) : xfloat :=
  match x with
  | Fin r => Fin (- r)
  | PInf => NInf
  | NInf => PInf
  | NaN => NaN
  end.

Definition xadd (x y : xfloat) : xfloat :=
  match x, y with
  | NaN, _ | _, NaN => NaN
  | Fin a, Fin b => Fin (a + b)
  | PInf, NInf | NInf, PInf => NaN
  | PInf, _ | _, PInf => PInf
  | NInf, _ | _, NInf => NInf
  end.

Definition xsub (x y : xfloat) : xfloat := xadd x (xneg y).

(** An infinity times a real: the sign rule, NaN for zero. *)
Definition inf_times (positive : bool) (r : R) : xfloat :=
  if Rlt_dec 0 r then inf positive
  else if Rlt_dec r 0 then inf (negb positive)
  else NaN.

Definition xmul (x y : xfloat) : xfloat :=
  match x, y with
  | NaN, _ | _, NaN => NaN
  | Fin a, Fin b => Fin (a * b)
  | PInf, Fin r | Fin r, PInf => inf_times true r
  | NInf, Fin r | Fin r, NInf => inf_times false r
  | PInf, PInf | NInf, NInf => PInf
  | PInf, NInf | NInf, PInf => NInf
  end.

Definition xdiv (x y : xfloat) : xfloat :=
  match x, y with
  | NaN, _ | _, NaN => NaN
  | Fin a, Fin b =>
      if Req_dec_T b 0 then
        if Rlt_dec 0 a then PInf else if Rlt_dec a 0 then NInf else NaN
      else Fin (a / b)
  | Fin _, (PInf | NInf) => Fin 0
  | PInf, Fin b => if Rlt_dec b 0 then NInf else PInf
  | NInf, Fin b => if Rlt_dec b 0 then PInf else NInf
  | (PInf | NInf), (PInf | NInf) => NaN
  end.

(** [torch.nn.Softplus()]: [log(1 + exp(x))], the identity above the
    threshold 20. *)
Definition softplus (x : xfloat) : xfloat :=
  match x with
  | Fin r => Fin (if Rlt_dec 20 r then r else ln (1 + exp r))
  | PInf => PInf
  | NInf => Fin 0
  | NaN => NaN
  end.

End XFloat.

(** ** The Beta agent

    Tensors are batches of rows.  The three networks are opaque functions of
    the observation batch, their parameters opaque tensors.  The calls into
    [torch.distributions.Beta] are external: the constructor may reject its
    arguments, as may [log_prob].  [logging.info] and the distribution
    calls are recorded in a trace, in program order. *)
Module BetaAgent.
Import XFloat.

Abbreviation tensor2 := (list (list xfloat)).

Inductive event : Type :=
| LogInfo (msg : string)
| LogParameter (k : nat) (v : tensor2)
| BetaInit (alpha beta : tensor2)
| BetaSample
| BetaLogProb (value : tensor2).

Record torch : Type := {
  beta_init : tensor2 → tensor2 → result unit;
  beta_sample : tensor2 → tensor2 → tensor2;
  beta_log_prob : tensor2 → tensor2 → tensor2 → result tensor2;
  beta_entropy : tensor2 → tensor2 → tensor2
}.

Record Agent : Type := {
  critic : tensor2 → tensor2;
  actor_alpha_pre_softplus : tensor2 → tensor2;
  actor_beta_pre_softplus : tensor2 → tensor2;
  alpha_parameters : list tensor2;
  beta_parameters : list tensor2;
  action_space_high : list xfloat;
  action_space_low : list xfloat
}.

Definition map2d (f : xfloat → xfloat) (t : tensor2) : tensor2 :=
  (λ r : list xfloat, f <$> r) <$> t.

(** [p(t).any()] *)
Definition any (p : xfloat → bool) (t : tensor2) : bool :=
  existsb (existsb p) t.

(** [t.sum(1)] *)
Definition sum1 (t : tensor2) : list xfloat :=
  (λ r, foldl xadd (Fin 0) r) <$> t.

Definition get_value (self : Agent) (x : tensor2) : tensor2 := critic self x.

Definition scale_by_action_bounds (self : Agent) (beta_dist_samples : tensor2)
    : tensor2 :=
  (λ s, zip_with xadd
          (zip_with xmul s
             (zip_with xsub (action_space_high self) (action_space_low self)))
          (action_space_low self)) <$> beta_dist_samples.

Definition inv_scale_by_action_bounds (self : Agent) (actions : tensor2)
    : tensor2 :=
  (λ a, zip_with xdiv
          (zip_with xsub a (action_space_low self))
          (zip_with xsub (action_space_high self) (action_space_low self)))
    <$> actions.

(** [for k, v in enumerate(net.parameters()): logging.info(...)] *)
Definition log_parameters (ps : list tensor2) : list event :=
  imap LogParameter ps.

(** The lines logged when a shape parameter is not finite. *)
Definition diagnostics (self : Agent) : list event :=
  [LogInfo "alpha model parameters:"]
  ++ log_parameters (alpha_parameters self)
  ++ [LogInfo "-----------------------------------";
      LogInfo "beta model parameters:"]
  ++ log_parameters (beta_parameters self).

Definition shape_parameter (pre : tensor2) : tensor2 :=
  map2d (λ v, xadd (softplus v) (Fin 1)) pre.

Definition non_finite (alpha beta : tensor2) : bool :=
  any isnan alpha || any isnan beta || any isinf alpha || any isinf beta.

Definition get_action_and_value (T : torch) (self : Agent) (x : tensor2)
    (action : option tensor2)
    : list event * result (tensor2 * list xfloat * list xfloat * tensor2) :=
  let alpha := shape_parameter (actor_alpha_pre_softplus self x) in
  let beta := shape_parameter (actor_beta_pre_softplus self x) in
  let logged := if non_finite alpha beta then diagnostics self else [] in
  match beta_init T alpha beta with
  | Raise e => (logged ++ [BetaInit alpha beta], Raise e)
  | Ok _ =>
      let '(sampled, action) :=
        match action with
        | None =>
            ([BetaSample],
             scale_by_action_bounds self (beta_sample T alpha beta))
        | Some action => ([], action)
        end in
      let value := inv_scale_by_action_bounds self action in
      let trace := logged ++ [BetaInit alpha beta] ++ sampled ++ [BetaLogProb value] in
      match beta_log_prob T alpha beta value with
      | Raise e => (trace, Raise e)
      | Ok lp =>
          (trace,
           Ok (action, sum1 lp, sum1 (beta_entropy T alpha beta), critic self x))
      end
  end.

End BetaAgent.

(** ** Predicates on the Beta agent's tensors *)
Module BetaSpec.
Import XFloat BetaAgent.

Definition finite_entry (x : xfloat) : Prop := ∃ r, x = Fin r.


(** A shape parameter above one. *)
Definition concentration_entry (x : xfloat) : Prop := ∃ r, x = Fin r ∧ 1 < r.





End BetaSpec.

(** ** The advantage recursion as the specification words it

    Entry by entry: at the last step the next value is the bootstrap value
    and the next non-terminal flag is one minus the done flag at the end of
    the segment, before that both come from buffer row [t + 1]. *)
Module GaeSpec.

Section Spec.
Variables (gamma : R) (T : nat).
Variables (rewards dones values : list (list R)).
Variables (next_value next_done : list R).

Definition nextnonterminal (t n : nat) : R :=
  1 - (if decide (t = (T - 1)%nat) then at1 (row next_done) n
       else at2 dones (t + 1) n).

Definition nextvalue (t n : nat) : R :=
  if decide (t = (T - 1)%nat) then at1 (row next_value) n
  else at2 values (t + 1) n.

Definition delta (t n : nat) : R :=
  at2 rewards t n + gamma * nextvalue t n * nextnonterminal t n
  - at2 values t n.

(** The advantage after the last step of the segment is the initial value
    of the accumulator. *)
Definition next_advantage (advantages : list (list R)) (t n : nat) : R :=
  if decide (t = (T - 1)%nat) then 0 else at2 advantages (t + 1) n.

(** What holds of the loop state when steps [k], ..., [T - 1] are done. *)
Definition loop_invariant (gae_lambda : R) (N k : nat)
    (st : Advantage.gae_state) : Prop :=
  shape2 T N (Advantage.advantages st)
  ∧ broadcasts N (Advantage.lastgaelam st)
  ∧ (∀ n, (n < N)%nat →
       at1 (Advantage.lastgaelam st) n =
         if decide (k = T) then 0 else at2 (Advantage.advantages st) k n)
  ∧ (∀ t n, (k ≤ t < T)%nat → (n < N)%nat →
       at2 (Advantage.advantages st) t n =
         delta t n
         + gamma * gae_lambda * nextnonterminal t n
           * next_advantage (Advantage.advantages st) t n).

End Spec.

End GaeSpec.

(** ** Concrete configurations and collaborators

    Small inputs on which the definitions above are run. *)
Module Fixture.
Import Config Optimizer.

(** One environment, segments of [steps] steps, [n] minibatches, two
    epochs, a KL threshold of 0.5. *)
Definition cli_with (steps n : Z) : cli :=
  {| total_timesteps := 8; track := true; train_flag := true;
     num_envs := 1; num_steps := steps; gae := true;
     gamma := 0.99; gae_lambda := 0.95; num_minibatches := n;
     update_epochs := 2; clip_coef := 0.2; clip_vloss := true;
     target_kl := Some 0.5 |}.

(** Ten samples in three minibatches: not evenly divisible. *)
Definition cli_uneven : cli := cli_with 10 3.

(** Four samples in two minibatches. *)
Definition cli_even : cli := cli_with 4 2.

Definition args_even : args :=
  {| opts := cli_even; batch_size := 4; minibatch_size := 2 |}.

(** A segment of four steps with reward 1, value 0 and an episode end after
    the last step. *)
Definition segment4 : segment :=
  {| obs := [[[0]]; [[0]]; [[0]]; [[0]]];
     actions := [[[0]]; [[0]]; [[0]]; [[0]]];
     logprobs := [[0]; [0]; [0]; [0]];
     rewards := [[1]; [1]; [1]; [1]];
     dones := [[0]; [0]; [0]; [0]];
     values := [[0]; [0]; [0]; [0]];
     next_value := [5];
     next_done := [1] |}.

(** Collaborators without state: the shuffle reverses the index array, and
    every minibatch reports an approximate KL of [kl]. *)
Definition collaborators_with (kl : R) : @collaborators unit unit unit :=
  {| shuffle := λ g l, (g, reverse l);
     minibatch_step := λ b ag mb_inds,
       (ag, {| v_loss := 0; pg_loss := 0; entropy_loss := 0;
               old_approx_kl := 0; approx_kl := kl |});
     rollout := λ ag e, (e, segment4) |}.

End Fixture.

Module AgentFixture.
Import XFloat BetaAgent.

(** A distribution library whose constructor rejects NaN shape parameters
    and nothing else, and whose sampler returns the midpoint. *)
Definition torch_midpoint : torch :=
  {| beta_init := λ alpha beta,
       if any isnan alpha || any isnan beta then Raise ValueError else Ok ();
     beta_sample := λ alpha beta, map2d (λ _, Fin 0.5) alpha;
     beta_log_prob := λ alpha beta value, Ok value;
     beta_entropy := λ alpha beta, alpha |}.

(** An agent with one action dimension bounded by [lo] and [hi] whose alpha
    network returns [pre] before the softplus. *)
Definition agent_with (lo hi pre : xfloat) : Agent :=
  {| critic := λ x, [[Fin 0]];
     actor_alpha_pre_softplus := λ x, [[pre]];
     actor_beta_pre_softplus := λ x, [[Fin 0]];
     alpha_parameters := [[[PInf]]];
     beta_parameters := [[[Fin 0]]];
     action_space_high := [hi];
     action_space_low := [lo] |}.

End AgentFixture.

(** ** The plain-return recursion, entry by entry *)
Module ReturnSpec.

Section Spec.
Variables (T : nat) (next_value : list R).

(** The return after the last step of the segment is the bootstrap
    value. *)
Definition next_return (returns : list (list R)) (t n : nat) : R :=
  if decide (t = (T - 1)%nat) then at1 (row next_value) n
  else at2 returns (t + 1) n.

End Spec.

End ReturnSpec.

(** ** The rollout loop

    The agent and the vector environment are opaque: [get_action_and_value]
    samples, so it threads the random state; [env_step] returns the next
    observations, the rewards and the done flags.  The six buffers are
    allocated once and written by index in every cycle. *)
Module Rollout.

Record buffers : Type := {
  obs : list (list (list R));
  actions : list (list (list R));
  logprobs : list (list R);
  rewards : list (list R);
  dones : list (list R);
  values : list (list R)
}.

Section Collect.
Context {agent rng env : Type}.

Record interfaces : Type := {
  get_action_and_value :
    agent → rng → list (list R) → rng * (list (list R) * list R * list R);
  get_value : agent → list (list R) → list R;
  env_step : env → list (list R) → env * (list (list R) * list R * list R)
}.

Record state : Type := {
  global_step : Z;
  buf : buffers;
  next_obs : list (list R);
  next_done : list R;
  the_env : env;
  the_rng : rng
}.

Variable I : interfaces.
Variable num_envs : Z.
Variable ag : agent.

(** The body of [for step in range(0, args.num_steps)]. *)
Definition rollout_step (s : state) (step : nat) : state :=
  let global_step := (global_step s + 1 * num_envs)%Z in
  let obs := <[step := next_obs s]> (obs (buf s)) in
  let dones := <[step := next_done s]> (dones (buf s)) in
  let '(g, (action, logprob, value)) :=
    get_action_and_value I ag (the_rng s) (next_obs s) in
  let values := <[step := value]> (values (buf s)) in
  let actions := <[step := action]> (actions (buf s)) in
  let logprobs := <[step := logprob]> (logprobs (buf s)) in
  let '(e, (next_obs, reward, done)) := env_step I (the_env s) action in
  let rewards := <[step := reward]> (rewards (buf s)) in
  {| global_step := global_step;
     buf := {| obs := obs; actions := actions; logprobs := logprobs;
               rewards := rewards; dones := dones; values := values |};
     next_obs := next_obs; next_done := done;
     the_env := e; the_rng := g |}.

Definition rollout (num_steps : nat) (s : state) : state :=
  foldl rollout_step s (seq 0 num_steps).

(** The segment handed to the estimator: the buffers with the bootstrap
    value of the observation that follows. *)
Definition to_segment (s : state) : Optimizer.segment :=
  {| Optimizer.obs := obs (buf s); Optimizer.actions := actions (buf s);
     Optimizer.logprobs := logprobs (buf s);
     Optimizer.rewards := rewards (buf s); Optimizer.dones := dones (buf s);
     Optimizer.values := values (buf s);
     Optimizer.next_value := get_value I ag (next_obs s);
     Optimizer.next_done := next_done s |}.

(** One interaction, as a value: what the policy saw and did and what the
    environment answered. *)
Record transition : Type := {
  tr_obs : list (list R);
  tr_done : list R;
  tr_action : list (list R);
  tr_logprob : list R;
  tr_value : list R;
  tr_reward : list R;
  tr_done_after : list R
}.

(** The first [n] interactions from observation [o] and done flags [d], and
    the random state, environment, observation and done flags they
    leave. *)
Fixpoint interact (n : nat) (g : rng) (e : env) (o : list (list R))
    (d : list R)
    : list transition * (rng * env * list (list R) * list R) :=
  match n with
  | O => ([], (g, e, o, d))
  | S n' =>
      let '(trs, (g1, e1, o1, d1)) := interact n' g e o d in
      let '(g2, (action, logprob, value)) := get_action_and_value I ag g1 o1 in
      let '(e2, (o2, reward, d2)) := env_step I e1 action in
      (trs ++ [{| tr_obs := o1; tr_done := d1; tr_action := action;
                  tr_logprob := logprob; tr_value := value;
                  tr_reward := reward; tr_done_after := d2 |}],
       (g2, e2, o2, d2))
  end.

End Collect.

End Rollout.

(** ** Learning-rate annealing

    [frac = 1.0 - (update - 1.0) / num_updates] and
    [lrnow = frac * args.learning_rate], for [update] in
    [1 .. num_updates]. *)
Module Anneal.

Definition lrnow (learning_rate : R) (num_updates update : Z) : R :=
  let frac := 1 - (IZR update - 1) / IZR num_updates in
  frac * learning_rate.

End Anneal.

(** ** The update cycle on the concrete rollout

    The environment side of an update cycle is the state of the rollout
    loop; the rollout of a cycle is the loop of [args.num_steps] steps
    followed by the bootstrap value. *)
Module Driver.
Import Config.

Section WithInterfaces.
Context {agent rng env rng_np : Type}.
Variable I : @Rollout.interfaces agent rng env.
Variable a : args.

Definition rollout_of (ag : agent) (e : @Rollout.state rng env)
    : @Rollout.state rng env * Optimizer.segment :=
  let s' :=
    Rollout.rollout I (num_envs (opts a)) ag (Z.to_nat (num_steps (opts a))) e in
  (s', Rollout.to_segment I ag s').

Definition collaborators_of
    (shuffle : rng_np → list nat → rng_np * list nat)
    (minibatch_step :
       Optimizer.batch → agent → list nat → agent * Optimizer.mb_stats)
    : @Optimizer.collaborators rng_np agent (@Rollout.state rng env) :=
  {| Optimizer.shuffle := shuffle;
     Optimizer.minibatch_step := minibatch_step;
     Optimizer.rollout := rollout_of |}.

End WithInterfaces.

End Driver.

(** ** The body of the minibatch loop

    The policy diagnostics, the optional advantage normalisation and the
    clipped surrogate loss, as functions of the recomputed log-probabilities
    and the gathered minibatch.  Both scripts have the same code. *)
Module Minibatch.

Definition vneg (u : list R) : list R := Ropp <$> u.
Definition vmul (u v : list R) : list R := zip_with Rmult u v.

(** [logratio = newlogprob - b_logprobs[mb_inds]] *)
Definition logratio (newlogprob mb_logprobs : list R) : list R :=
  vsub newlogprob mb_logprobs.

(** [ratio = logratio.exp()] *)
Definition ratio (logratio : list R) : list R := exp <$> logratio.

Definition old_approx_kl (logratio : list R) : R := mean (vneg logratio).

Definition approx_kl (ratio logratio : list R) : R :=
  mean (vsub ((λ r, r - 1) <$> ratio) logratio).

(** [((ratio - 1.0).abs() > args.clip_coef).float().mean()] *)
Definition clipfrac (clip_coef : R) (ratio : list R) : R :=
  mean ((λ r, if Rgt_dec (Rabs (r - 1)) clip_coef then 1 else 0) <$> ratio).

Definition pg_loss (clip_coef : R) (mb_advantages ratio : list R) : R :=
  let pg_loss1 := vmul (vneg mb_advantages) ratio in
  let pg_loss2 :=
    vmul (vneg mb_advantages)
      (vclamp ratio (1 - clip_coef) (1 + clip_coef)) in
  mean (vmax pg_loss1 pg_loss2).

(** [loss = pg_loss - args.ent_coef * entropy_loss + v_loss * args.vf_coef] *)
Definition loss (pg_loss ent_coef entropy_loss v_loss vf_coef : R) : R :=
  pg_loss - ent_coef * entropy_loss + v_loss * vf_coef.

End Minibatch.

(** ** Environment set-up: seeds and the clipping wrappers *)
Module Envs.

(** The Gaussian script:
    [[args.seed + (i % args.num_seeds) for i in range(args.num_envs)]].
    Python's [%] on integers is [Z.modulo]; a zero modulus raises as soon
    as there is an environment. *)
Definition seed_arr (seed num_seeds : Z) (num_envs : nat) : result (list Z) :=
  if decide (num_seeds = 0%Z ∧ num_envs ≠ 0%nat) then Raise ZeroDivisionError
  else Ok ((λ i, seed + Z.of_nat i `mod` num_seeds)%Z <$> seq 0 num_envs).

End Envs.

(** A network output that makes a shape parameter non-finite. *)
Module BetaOverflow.
Import XFloat.

Definition overflowing (x : xfloat) : bool :=
  match x with
  | PInf | NaN => true
  | Fin _ | NInf => false
  end.

End BetaOverflow.

(** ** Binary32 arithmetic

    The tensors of the scripts are [torch.float32].  This module computes
    with such numbers: a finite value is [m * 2^e] for integers [m] and
    [e], and every operation rounds its exact result to the nearest value
    with a 24-bit significand and an exponent of at least -149, ties to
    even, and to an infinity from [2^128 - 2^103] on.  The sign of a zero
    is not represented. *)
Module Binary32.

Inductive binary32 : Type :=
| Finite (m e : Z)
| Inf (negative : bool)
| NaN.

#[local] Open Scope Z_scope.

(** The binary32 value nearest to [m * 2^e]. *)
Definition round (m e : Z) : binary32 :=
  if m =? 0 then Finite 0 0
  else
    let a := Z.abs m in
    let shift := Z.max (Z.log2 a + 1 - 24) (-149 - e) in
    let '(q, e') :=
      if shift <=? 0 then (a, e)
      else
        let q := Z.shiftr a shift in
        let rem := a - Z.shiftl q shift in
        let half := Z.shiftl 1 (shift - 1) in
        let up := (half <? rem) || ((rem =? half) && Z.odd q) in
        (if up then q + 1 else q, e + shift) in
    if q =? 0 then Finite 0 0
    else if 128 <=? Z.log2 q + e' then Inf (m <? 0)
    else Finite (Z.sgn m * q) e'.

Definition neg (x : binary32) : binary32 :=
  match x with
  | Finite m e => Finite (- m) e
  | Inf s => Inf (negb s)
  | NaN => NaN
  end.

Definition add (x y : binary32) : binary32 :=
  match x, y with
  | NaN, _ | _, NaN => NaN
  | Finite m1 e1, Finite m2 e2 =>
      let e := Z.min e1 e2 in
      round (Z.shiftl m1 (e1 - e) + Z.shiftl m2 (e2 - e)) e
  | Inf s1, Inf s2 => if Bool.eqb s1 s2 then Inf s1 else NaN
  | Inf s, Finite _ _ | Finite _ _, Inf s => Inf s
  end.

Definition sub (x y : binary32) : binary32 := add x (neg y).

Definition mul (x y : binary32) : binary32 :=
  match x, y with
  | NaN, _ | _, NaN => NaN
  | Finite m1 e1, Finite m2 e2 => round (m1 * m2) (e1 + e2)
  | Inf s, Finite m _ | Finite m _, Inf s =>
      if m =? 0 then NaN else Inf (xorb s (m <? 0))
  | Inf s1, Inf s2 => Inf (xorb s1 s2)
  end.

(** The quotient is computed to more than 24 bits, with one more bit that
    records a non-zero remainder, and then rounded. *)
Definition div (x y : binary32) : binary32 :=
  match x, y with
  | NaN, _ | _, NaN => NaN
  | Finite m1 e1, Finite m2 e2 =>
      if m2 =? 0 then
        if m1 =? 0 then NaN else Inf (m1 <? 0)
      else
        let k := Z.log2 (Z.abs m2) + 32 in
        let n := Z.shiftl (Z.abs m1) k in
        let q := n / Z.abs m2 in
        let sticky := if n mod Z.abs m2 =? 0 then 0 else 1 in
        round (Z.sgn m1 * Z.sgn m2 * (2 * q + sticky)) (e1 - e2 - k - 1)
  | Finite _ _, Inf _ => Finite 0 0
  | Inf s, Finite m _ => Inf (xorb s (m <? 0))
  | Inf _, Inf _ => NaN
  end.

(** [x <= y]; false when an operand is NaN. *)
Definition leb (x y : binary32) : bool :=
  match x, y with
  | NaN, _ | _, NaN => false
  | Inf true, _ | _, Inf false => true
  | Inf false, _ | _, Inf true => false
  | Finite m1 e1, Finite m2 e2 =>
      let e := Z.min e1 e2 in
      Z.shiftl m1 (e1 - e) <=? Z.shiftl m2 (e2 - e)
  end.

Definition ltb (x y : binary32) : bool := leb x y && negb (leb y x).

End Binary32.

(** ** Action rescaling over any arithmetic

    The two rescaling methods of the Beta agent, with the four operations
    as parameters: over the extended reals they are the methods of
    [Module BetaAgent], over binary32 they compute what the tensors
    hold. *)
Module Rescale.

Section Arithmetic.
Context {F : Type}.
Variables add sub mul div : F → F → F.
Variables action_space_low action_space_high : list F.

(** [beta_dist_samples * (high - low) + low] *)
Definition scale_by_action_bounds (beta_dist_samples : list (list F))
    : list (list F) :=
  (λ s, zip_with add
          (zip_with mul s (zip_with sub action_space_high action_space_low))
          action_space_low)
    <$> beta_dist_samples.

(** [(actions - low) / (high - low)] *)
Definition inv_scale_by_action_bounds (actions : list (list F))
    : list (list F) :=
  (λ a, zip_with div
          (zip_with sub a action_space_low)
          (zip_with sub action_space_high action_space_low))
    <$> actions.

End Arithmetic.

End Rescale.

(** ** Further concrete configurations and collaborators *)
Module RunFixture.
Import Config.

(** Four samples in two minibatches, two epochs, no KL threshold. *)
Definition cli_no_kl : cli :=
  {| total_timesteps := 8; track := true; train_flag := true;
     num_envs := 1; num_steps := 4; gae := true;
     gamma := 0.99; gae_lambda := 0.95; num_minibatches := 2;
     update_epochs := 2; clip_coef := 0.2; clip_vloss := true;
     target_kl := None |}.

Definition args_no_kl : args :=
  {| opts := cli_no_kl; batch_size := 4; minibatch_size := 2 |}.

(** Four samples in five minibatches. *)
Definition cli_crowded : cli := Fixture.cli_with 4 5.

Definition args_crowded : args :=
  {| opts := cli_crowded; batch_size := 4; minibatch_size := 0 |}.

(** Four samples in two minibatches, no optimisation epoch. *)
Definition cli_no_epochs : cli :=
  {| total_timesteps := 8; track := true; train_flag := true;
     num_envs := 1; num_steps := 4; gae := true;
     gamma := 0.99; gae_lambda := 0.95; num_minibatches := 2;
     update_epochs := 0; clip_coef := 0.2; clip_vloss := true;
     target_kl := None |}.

Definition args_no_epochs : args :=
  {| opts := cli_no_epochs; batch_size := 4; minibatch_size := 2 |}.

(** The state of a run whose first update cycle computed an explained
    variance of 0.5. *)
Definition state_after_cycle : @Optimizer.state unit unit unit :=
  {| Optimizer.st_agent := (); Optimizer.st_rng := ();
     Optimizer.st_env := (); Optimizer.st_inds := [];
     Optimizer.st_vars :=
       {| Optimizer.stats := None;
          Optimizer.explained_var := Some (Some 0.5) |};
     Optimizer.st_log := [] |}.

(** A four-step segment of one environment with an episode end stored in
    row 2. *)
Definition dones_mid : list (list R) := [[0]; [0]; [1]; [0]].

(** One environment that counts its steps, pays reward 1 and ends an
    episode at its second step; a policy that always plays 0. *)
Definition interfaces_count : @Rollout.interfaces unit unit nat :=
  {| Rollout.get_action_and_value := λ _ g _, (g, ([[0]], [0], [0]));
     Rollout.get_value := λ _ _, [0];
     Rollout.env_step := λ e _,
       (S e, ([[INR (S e)]], [1], [if Nat.eqb e 1 then 1 else 0])) |}.

(** Buffers of [T] rows of zeros and a fresh environment. *)
Definition state_zero (T : nat) : @Rollout.state unit nat :=
  {| Rollout.global_step := 0;
     Rollout.buf :=
       {| Rollout.obs := replicate T [[0]];
          Rollout.actions := replicate T [[0]];
          Rollout.logprobs := replicate T [0];
          Rollout.rewards := replicate T [0];
          Rollout.dones := replicate T [0];
          Rollout.values := replicate T [0] |};
     Rollout.next_obs := [[0]]; Rollout.next_done := [0];
     Rollout.the_env := 0%nat; Rollout.the_rng := () |}.

(** A minibatch step that leaves the agent alone. *)
Definition minibatch_step_idle (b : Optimizer.batch) (ag : unit)
    (mb_inds : list nat) : unit * Optimizer.mb_stats :=
  (ag, {| Optimizer.v_loss := 0; Optimizer.pg_loss := 0;
          Optimizer.entropy_loss := 0; Optimizer.old_approx_kl := 0;
          Optimizer.approx_kl := 0 |}).

End RunFixture.

(** * Theorems *)

Ltac case_minmax := unfold clamp, Rmin, Rmax; repeat destruct Rle_dec; try lra.

(** ** Value loss *)

Lemma vmax_diag (u : list R) : vmax u u = u.
Proof.
  unfold vmax. induction u as [|x u IH]; simpl; [done|].
  rewrite IH. f_equal. unfold Rmax. destruct Rle_dec; lra.
Qed.

(** With clipping on, both scripts return the unclipped loss against the
    return target: the clipped error never enters the maximum. *)
Lemma value_loss_clip_is_unclipped clip_coef newvalue b_returns b_values mb_inds
    mb_returns mb_values :
  gather b_returns mb_inds = Some mb_returns →
  gather b_values mb_inds = Some mb_values →
  Gaussian.value_loss true clip_coef newvalue b_returns b_values mb_inds
    = Some (ValueLossSpec.unclipped newvalue mb_returns)
  ∧ Beta.value_loss true clip_coef newvalue b_returns b_values mb_inds
    = Some (ValueLossSpec.unclipped newvalue mb_returns).
Proof.
  intros Hr Hv. unfold Gaussian.value_loss, Beta.value_loss.
  rewrite Hr, Hv. simpl. rewrite vmax_diag. done.
Qed.

(** C1 (defect in the code).  With value-loss clipping enabled the loss
    should be half the mean of the larger of the unclipped and the clipped
    squared error.  On the one-sample minibatch newvalue = 1, return = 1,
    collection-time value = 0, clip_coef = 0.2 the specified loss is 0.32
    (the clipped estimate 0.2 misses the target by 0.8), while both scripts
    return 0: they take the maximum of the unclipped error with itself. *)
Theorem clip_vloss_drops_clipped_error :
  ValueLossSpec.clipped 0.2 [1] [1] [0] = 0.32
  ∧ Gaussian.value_loss true 0.2 [1] [1] [0] [0%nat] = Some 0
  ∧ Beta.value_loss true 0.2 [1] [1] [0] [0%nat] = Some 0.
Proof.
  repeat split.
  - unfold ValueLossSpec.clipped, mean. simpl. case_minmax.
  - unfold Gaussian.value_loss, mean. simpl. f_equal. case_minmax.
  - unfold Beta.value_loss, mean. simpl. f_equal. case_minmax.
Qed.

(** Without clipping, the Gaussian script computes half the mean squared
    error against the return target. *)
Lemma gaussian_value_loss_unclipped clip_coef newvalue b_returns b_values mb_inds
    mb_returns :
  gather b_returns mb_inds = Some mb_returns →
  Gaussian.value_loss false clip_coef newvalue b_returns b_values mb_inds
    = Some (ValueLossSpec.unclipped newvalue mb_returns).
Proof. intros Hr. unfold Gaussian.value_loss. rewrite Hr. done. Qed.

(** Without clipping, the Beta script measures the error against the
    collection-time values, whatever the return targets are. *)
Lemma beta_value_loss_unclipped clip_coef newvalue b_returns b_values mb_inds
    mb_values :
  gather b_values mb_inds = Some mb_values →
  Beta.value_loss false clip_coef newvalue b_returns b_values mb_inds
    = Some (ValueLossSpec.unclipped newvalue mb_values).
Proof. intros Hv. unfold Beta.value_loss. rewrite Hv. done. Qed.

(** C3 (defect in the Beta script).  With value-loss clipping disabled the
    loss should be half the mean squared error between the new value
    estimate and the return target.  On the one-sample minibatch
    newvalue = 1, return = 1, collection-time value = 0 that is 0, which
    the Gaussian script returns; the Beta script returns 0.5, the error
    against the collection-time value. *)
Theorem beta_unclipped_vloss_wrong_target :
  ValueLossSpec.unclipped [1] [1] = 0
  ∧ Gaussian.value_loss false 0.2 [1] [1] [0] [0%nat] = Some 0
  ∧ Beta.value_loss false 0.2 [1] [1] [0] [0%nat] = Some 0.5.
Proof.
  repeat split.
  - unfold ValueLossSpec.unclipped, mean. simpl. lra.
  - unfold Gaussian.value_loss, mean. simpl. f_equal. lra.
  - unfold Beta.value_loss, mean. simpl. f_equal. lra.
Qed.

(** ** Configuration and branch selection *)

(** C2.  In the Gaussian script the training branch is unreachable: for
    every command line, [train_flag] is overwritten with [False] before the
    branch test, so a run that gets past argument processing takes the
    evaluation branch (the only failure of argument processing modelled
    here is the division by a zero minibatch count). *)
Theorem gaussian_training_unreachable (c : Config.cli) :
  GaussianMain.main c ≠ Ok TrainingPath
  ∧ GaussianMain.main c =
      if decide (Config.num_minibatches c = 0%Z)
      then Raise ZeroDivisionError else Ok EvaluationPath.
Proof.
  unfold GaussianMain.main, Config.parse_args, Config.floordiv.
  destruct (decide (Config.num_minibatches c = 0%Z)); simpl.
  - done.
  - rewrite andb_false_r. done.
Qed.

(** The Beta script does reach its training branch, under [--track]. *)
Lemma beta_training_reachable (c : Config.cli) :
  Config.num_minibatches c ≠ 0%Z → Config.track c = true →
  BetaMain.main c = Ok TrainingPath.
Proof.
  intros Hn Ht. unfold BetaMain.main, Config.parse_args, Config.floordiv.
  destruct (decide _); [done|]. simpl. by rewrite Ht.
Qed.

(** ** Advantage estimation *)

Lemma at1_lift2 f N a b n :
  broadcasts N a → broadcasts N b → (n < N)%nat →
  at1 (lift2 f a b) n = f (at1 a n) (at1 b n).
Proof.
  intros Ha Hb Hn. destruct a as [x|u], b as [y|v]; simpl in *; [done|..].
  - rewrite list_lookup_fmap.
    destruct (lookup_lt_is_Some_2 v n) as [y Hy]; [lia|]. by rewrite Hy.
  - rewrite list_lookup_fmap.
    destruct (lookup_lt_is_Some_2 u n) as [x Hx]; [lia|]. by rewrite Hx.
  - rewrite lookup_zip_with.
    destruct (lookup_lt_is_Some_2 u n) as [x Hx]; [lia|].
    destruct (lookup_lt_is_Some_2 v n) as [y Hy]; [lia|].
    by rewrite Hx, Hy.
Qed.

Lemma broadcasts_lift2 f N a b :
  broadcasts N a → broadcasts N b → broadcasts N (lift2 f a b).
Proof.
  intros Ha Hb. destruct a as [x|u], b as [y|v]; simpl in *; [done|..].
  - by rewrite length_fmap.
  - by rewrite length_fmap.
  - rewrite length_zip_with. lia.
Qed.

Lemma at1_row_at m t n : at1 (Advantage.row_at m t) n = at2 m t n.
Proof. unfold Advantage.row_at, at2. simpl. by destruct (m !! t). Qed.

Lemma broadcasts_row_at T N m t :
  shape2 T N m → (t < T)%nat → broadcasts N (Advantage.row_at m t).
Proof.
  intros [Hlen Hrows] Ht. unfold Advantage.row_at. simpl.
  destruct (lookup_lt_is_Some_2 m t) as [r Hr]; [lia|]. rewrite Hr. simpl.
  by eapply (Forall_lookup_1 _ _ _ _ Hrows Hr).
Qed.

Lemma at2_insert_eq m t r n :
  (t < length m)%nat → at2 (<[t:=r]> m) t n = default 0 (r !! n).
Proof. intros Ht. unfold at2. by rewrite list_lookup_insert_eq. Qed.

Lemma at2_insert_ne m t t' r n :
  t ≠ t' → at2 (<[t:=r]> m) t' n = at2 m t' n.
Proof. intros Hne. unfold at2. by rewrite list_lookup_insert_ne. Qed.

Lemma at1_to_row N x n :
  broadcasts N x → (n < N)%nat → default 0 (to_row N x !! n) = at1 x n.
Proof.
  intros Hx Hn. destruct x as [r|v]; simpl; [|done].
  by rewrite lookup_replicate_2.
Qed.

Lemma length_to_row N x : broadcasts N x → length (to_row N x) = N.
Proof. destruct x; simpl; [by rewrite length_replicate | done]. Qed.

Lemma shape2_insert T N m t r :
  shape2 T N m → length r = N → shape2 T N (<[t:=r]> m).
Proof.
  intros [Hlen Hrows] Hr. split; [by rewrite length_insert|].
  by apply Forall_insert.
Qed.

Lemma shape2_zeros_like T N m : shape2 T N m → shape2 T N (Advantage.zeros_like m).
Proof.
  intros [Hlen Hrows]. unfold Advantage.zeros_like. split.
  - by rewrite length_fmap.
  - apply Forall_fmap. eapply Forall_impl; [exact Hrows|].
    intros r Hr. simpl. by rewrite length_replicate.
Qed.

Ltac solve_broadcasts :=
  repeat first
    [ assumption
    | exact I
    | apply broadcasts_lift2
    | eapply broadcasts_row_at; [eassumption|lia] ].

Section GaeProofs.
Variables (gamma gae_lambda : R) (T N : nat).
Variables (rewards dones values : list (list R)).
Variables (next_value next_done : list R).
Hypothesis Hrewards : shape2 T N rewards.
Hypothesis Hdones : shape2 T N dones.
Hypothesis Hvalues : shape2 T N values.
Hypothesis Hnext_value : length next_value = N.
Hypothesis Hnext_done : length next_done = N.

Local Abbreviation step :=
  (Advantage.gae_step gamma gae_lambda T N rewards dones values
     next_value next_done).
Local Abbreviation inv :=
  (GaeSpec.loop_invariant gamma T rewards dones values next_value next_done
     gae_lambda N).

Lemma gae_inv_init :
  inv T {| Advantage.advantages := Advantage.zeros_like rewards;
           Advantage.lastgaelam := scalar 0 |}.
Proof.
  split; [by apply shape2_zeros_like|]. split; [done|]. split; simpl.
  - intros n _. by rewrite decide_True.
  - intros t n Ht. lia.
Qed.

Lemma gae_inv_step k st : (k < T)%nat → inv (S k) st → inv k (step st k).
Proof.
  intros Hk (Hshape & Hbc & Hlast & Heq).
  pose proof (proj1 Hshape) as Hlen.
  unfold Advantage.gae_step.
  set (nn := if decide (k = (T - 1)%nat)
             then ((scalar 1 - row next_done)%T, row next_value)
             else ((scalar 1 - Advantage.row_at dones (k + 1))%T,
                   Advantage.row_at values (k + 1))).
  assert (Hnn : broadcasts N nn.1 ∧ broadcasts N nn.2
    ∧ (∀ n, (n < N)%nat →
         at1 nn.1 n = GaeSpec.nextnonterminal T dones next_done k n
         ∧ at1 nn.2 n = GaeSpec.nextvalue T values next_value k n)).
  { unfold nn, GaeSpec.nextnonterminal, GaeSpec.nextvalue.
    destruct (decide (k = (T - 1)%nat)) as [->|Hne]; cbn [fst snd].
    - split; [unfold tsub; solve_broadcasts|]. split; [done|].
      intros n Hn. split; [|done].
      unfold tsub. rewrite (at1_lift2 _ N); [done|solve_broadcasts..|done].
    - assert (k + 1 < T)%nat by lia.
      split; [unfold tsub; solve_broadcasts|].
      split; [solve_broadcasts|].
      intros n Hn. rewrite <- !at1_row_at. split; [|done].
      unfold tsub. rewrite (at1_lift2 _ N); [done|solve_broadcasts..|done]. }
  destruct nn as [nextnonterminal nextvalues]. simpl in Hnn.
  destruct Hnn as (Hbn & Hbv & Hat).
  set (delta := (Advantage.row_at rewards k
                 + scalar gamma * nextvalues * nextnonterminal
                 - Advantage.row_at values k)%T).
  assert (Hbd : broadcasts N delta).
  { unfold delta, tadd, tsub, tmul. solve_broadcasts. }
  assert (Hd : ∀ n, (n < N)%nat →
    at1 delta n =
      GaeSpec.delta gamma T rewards dones values next_value next_done k n).
  { intros n Hn. unfold delta, tadd, tsub, tmul, GaeSpec.delta.
    destruct (Hat n Hn) as [Hnt Hnv].
    rewrite !(at1_lift2 _ N), !at1_row_at, Hnt, Hnv;
      [done|solve_broadcasts..]. }
  set (lgl := (delta + scalar gamma * scalar gae_lambda * nextnonterminal
                       * Advantage.lastgaelam st)%T).
  assert (Hbl : broadcasts N lgl).
  { unfold lgl, tadd, tmul. solve_broadcasts. }
  assert (Hl : ∀ n, (n < N)%nat →
    at1 lgl n =
      GaeSpec.delta gamma T rewards dones values next_value next_done k n
      + gamma * gae_lambda * GaeSpec.nextnonterminal T dones next_done k n
        * GaeSpec.next_advantage T (Advantage.advantages st) k n).
  { intros n Hn. unfold lgl, tadd, tmul.
    destruct (Hat n Hn) as [Hnt _].
    rewrite !(at1_lift2 _ N), Hd, Hnt, (Hlast n Hn);
      [|done || solve_broadcasts..].
    simpl. unfold GaeSpec.next_advantage.
    destruct (decide (S k = T)), (decide (k = (T - 1)%nat)); try lia; [done|].
    by replace (k + 1)%nat with (S k) by lia. }
  split; [apply shape2_insert; [done|by apply length_to_row]|].
  split; [done|]. split; simpl.
  - intros n Hn. rewrite decide_False by lia.
    rewrite at2_insert_eq by lia. symmetry. by apply at1_to_row.
  - intros t n Ht Hn.
    assert (Hnext : GaeSpec.next_advantage T
              (<[k:=to_row N lgl]> (Advantage.advantages st)) t n
            = GaeSpec.next_advantage T (Advantage.advantages st) t n).
    { unfold GaeSpec.next_advantage.
      destruct (decide (t = (T - 1)%nat)); [done|].
      apply at2_insert_ne. lia. }
    rewrite Hnext.
    destruct (decide (t = k)) as [->|Hne].
    + rewrite at2_insert_eq by lia. rewrite at1_to_row by done. by apply Hl.
    + rewrite at2_insert_ne by done. apply Heq; [lia|done].
Qed.

Lemma gae_inv_fold k st :
  (k ≤ T)%nat → inv k st → inv 0 (foldl step st (reverse (seq 0 k))).
Proof.
  revert st. induction k as [|k IH]; intros st Hk Hinv; [done|].
  rewrite seq_S, reverse_app. simpl.
  apply IH; [lia|]. apply gae_inv_step; [lia|done].
Qed.

Lemma gae_loop_invariant :
  inv 0 (Advantage.gae_loop gamma gae_lambda T N rewards dones values
           next_value next_done).
Proof. unfold Advantage.gae_loop. apply gae_inv_fold; [done|apply gae_inv_init]. Qed.

End GaeProofs.

Lemma at2_zip_vadd T N a b t n :
  shape2 T N a → shape2 T N b → (t < T)%nat → (n < N)%nat →
  at2 (zip_with vadd a b) t n = at2 a t n + at2 b t n.
Proof.
  intros [Hla Ha] [Hlb Hb] Ht Hn. unfold at2.
  rewrite lookup_zip_with.
  destruct (lookup_lt_is_Some_2 a t) as [u Hu]; [lia|].
  destruct (lookup_lt_is_Some_2 b t) as [v Hv]; [lia|].
  rewrite Hu, Hv. simpl. unfold vadd. rewrite lookup_zip_with.
  pose proof (Forall_lookup_1 _ _ _ _ Ha Hu) as Hlu.
  pose proof (Forall_lookup_1 _ _ _ _ Hb Hv) as Hlv. simpl in Hlu, Hlv.
  destruct (lookup_lt_is_Some_2 u n) as [x Hx]; [lia|].
  destruct (lookup_lt_is_Some_2 v n) as [y Hy]; [lia|].
  by rewrite Hx, Hy.
Qed.

Lemma gae_advantage_equation gamma gae_lambda T N rewards dones values
    next_value next_done t n :
  shape2 T N rewards → shape2 T N dones → shape2 T N values →
  length next_value = N → length next_done = N →
  (t < T)%nat → (n < N)%nat →
  let advantages :=
    (Advantage.compute_gae gamma gae_lambda T N rewards dones values
       next_value next_done).1 in
  shape2 T N advantages
  ∧ at2 advantages t n =
      GaeSpec.delta gamma T rewards dones values next_value next_done t n
      + gamma * gae_lambda * GaeSpec.nextnonterminal T dones next_done t n
        * GaeSpec.next_advantage T advantages t n.
Proof.
  intros Hr Hd Hv Hnv Hnd Ht Hn. simpl.
  destruct (gae_loop_invariant gamma gae_lambda T N rewards dones values
              next_value next_done Hr Hd Hv Hnv Hnd)
    as (Hshape & _ & _ & Heq).
  split; [done|]. apply Heq; [lia|done].
Qed.

(** C4.  In GAE mode, for a segment of [T] steps and [N] environments, the
    advantages obey the backward recursion with the accumulator starting at
    0: advantage[t] = delta[t] + gamma * lambda * nextnonterminal *
    advantage[t+1], with delta[t] = reward[t] + gamma * nextvalue *
    nextnonterminal - value[t]; at t = T-1 nextvalue is the bootstrap value
    and nextnonterminal is one minus the done flag at the end of the
    segment, for t < T-1 both come from buffer row t+1; and
    return[t] = advantage[t] + value[t]. *)
Theorem gae_backward_recursion gamma gae_lambda T N rewards dones values
    next_value next_done :
  shape2 T N rewards → shape2 T N dones → shape2 T N values →
  length next_value = N → length next_done = N →
  ∀ t n, (t < T)%nat → (n < N)%nat →
    let result :=
      Advantage.compute_gae gamma gae_lambda T N rewards dones values
        next_value next_done in
    at2 result.1 t n =
      GaeSpec.delta gamma T rewards dones values next_value next_done t n
      + gamma * gae_lambda * GaeSpec.nextnonterminal T dones next_done t n
        * GaeSpec.next_advantage T result.1 t n
    ∧ at2 result.2 t n = at2 result.1 t n + at2 values t n.
Proof.
  intros Hr Hd Hv Hnv Hnd t n Ht Hn.
  destruct (gae_advantage_equation gamma gae_lambda T N rewards dones values
              next_value next_done t n Hr Hd Hv Hnv Hnd Ht Hn)
    as [Hshape Heq].
  cbv zeta. split; [exact Heq|]. by apply (at2_zip_vadd T N).
Qed.

(** C5.  When the done flag at the end of the segment is set in every
    environment, the advantage of the last step is reward[T-1] - value[T-1]
    exactly, whatever bootstrap value is supplied: two bootstrap values give
    the same last-step advantage. *)
Theorem terminal_segment_ignores_bootstrap gamma gae_lambda T N rewards dones
    values next_value next_value' :
  shape2 T N rewards → shape2 T N dones → shape2 T N values →
  length next_value = N → length next_value' = N → (0 < T)%nat →
  ∀ n, (n < N)%nat →
    let advantages nv :=
      (Advantage.compute_gae gamma gae_lambda T N rewards dones values
         nv (replicate N 1)).1 in
    at2 (advantages next_value) (T - 1) n
      = at2 rewards (T - 1) n - at2 values (T - 1) n
    ∧ at2 (advantages next_value) (T - 1) n
      = at2 (advantages next_value') (T - 1) n.
Proof.
  intros Hr Hd Hv Hnv Hnv' HT n Hn.
  assert (Hlast : ∀ nv, length nv = N →
    at2 (Advantage.compute_gae gamma gae_lambda T N rewards dones values
           nv (replicate N 1)).1 (T - 1) n
    = at2 rewards (T - 1) n - at2 values (T - 1) n).
  { intros nv Hlen.
    destruct (gae_advantage_equation gamma gae_lambda T N rewards dones values
                nv (replicate N 1) (T - 1)%nat n Hr Hd Hv Hlen
                (length_replicate _ _) ltac:(lia) Hn) as [_ Heq].
    rewrite Heq.
    unfold GaeSpec.delta, GaeSpec.nextnonterminal, GaeSpec.next_advantage.
    rewrite !decide_True by done. simpl.
    rewrite lookup_replicate_2 by done. simpl. lra. }
  cbv beta zeta. by rewrite !Hlast.
Qed.

(** ** Minibatch schedule *)

Lemma concat_chunks (m cnt : nat) (l : list nat) :
  (0 < m)%nat → (length l ≤ cnt * m)%nat →
  concat ((λ k, take m (drop (k * m) l)) <$> seq 0 cnt) = l.
Proof.
  intros Hm. revert l. induction cnt as [|cnt IH]; intros l Hlen.
  - destruct l; [done|simpl in Hlen; lia].
  - change (seq 0 (S cnt)) with (0%nat :: seq 1 cnt).
    rewrite <- fmap_S_seq, fmap_cons, <- list_fmap_compose. simpl concat.
    rewrite drop_0.
    rewrite (list_fmap_ext _ (λ k, take m (drop (k * m) (drop m l))) (seq 0 cnt)).
    + rewrite IH; [apply take_drop|]. rewrite length_drop. lia.
    + intros i k _. simpl. by rewrite drop_drop.
Qed.

Lemma length_chunks (m cnt : nat) (l : list nat) :
  length l = (cnt * m)%nat →
  Forall (λ mb, length mb = m) ((λ k, take m (drop (k * m) l)) <$> seq 0 cnt).
Proof.
  intros Hlen. apply Forall_fmap, Forall_forall. intros k Hk. simpl.
  apply elem_of_seq in Hk. rewrite length_take, length_drop. nia.
Qed.

Lemma slice_take_drop (l : list nat) (start m : nat) :
  Schedule.slice l start (start + m) = take m (drop start l).
Proof. unfold Schedule.slice. f_equal. lia. Qed.

(** For a positive minibatch size the slices of an epoch, laid end to end,
    are the index array: nothing is lost or repeated, divisible or not. *)
Lemma minibatches_concat (b_inds : list nat) (B : nat) (ms : Z) :
  (0 < ms)%Z → length b_inds = B →
  ∃ mbs, Schedule.minibatches b_inds B ms = Ok mbs ∧ concat mbs = b_inds.
Proof.
  intros Hms Hlen. unfold Schedule.minibatches, Schedule.py_range0.
  rewrite decide_False by lia. rewrite decide_False by lia. simpl.
  eexists. split; [done|].
  rewrite <- list_fmap_compose.
  rewrite (list_fmap_ext _ (λ k, take (Z.to_nat ms) (drop (k * Z.to_nat ms) b_inds))).
  - apply concat_chunks; [lia|].
    set (m := Z.to_nat ms). assert (0 < m)%nat by (unfold m; lia).
    pose proof (Nat.div_mod_eq (B + m - 1) m).
    pose proof (Nat.mod_upper_bound (B + m - 1) m). nia.
  - intros i k _. simpl. apply slice_take_drop.
Qed.

(** When the batch divides evenly there are [num_minibatches] slices of
    [minibatch_size] indices each. *)
Lemma minibatches_even (b_inds : list nat) (n m : nat) :
  (0 < m)%nat → length b_inds = (n * m)%nat →
  ∃ mbs, Schedule.minibatches b_inds (n * m) (Z.of_nat m) = Ok mbs
    ∧ concat mbs = b_inds
    ∧ length mbs = n
    ∧ Forall (λ mb, length mb = m) mbs.
Proof.
  intros Hm Hlen. unfold Schedule.minibatches, Schedule.py_range0.
  rewrite decide_False by lia. rewrite decide_False by lia. simpl.
  rewrite Nat2Z.id.
  assert (Hcnt : ((n * m + m - 1) `div` m)%nat = n).
  { symmetry. apply (Nat.div_unique _ _ _ (m - 1)); lia. }
  rewrite Hcnt. eexists. split; [done|].
  rewrite <- list_fmap_compose.
  rewrite (list_fmap_ext _ (λ k, take m (drop (k * m) b_inds)));
    [|intros i k _; simpl; apply slice_take_drop].
  split; [apply concat_chunks; lia|].
  split; [by rewrite length_fmap, length_seq|].
  by apply length_chunks.
Qed.

Lemma config_even_sizes (c : Config.cli) (a : Config.args) :
  Config.parse_args c = Ok a →
  (0 < Config.num_minibatches c)%Z → (0 < Config.batch_size a)%Z →
  (Config.batch_size a `mod` Config.num_minibatches c = 0)%Z →
  (0 < Config.minibatch_size a)%Z
  ∧ Z.to_nat (Config.batch_size a)
    = (Z.to_nat (Config.num_minibatches c) * Z.to_nat (Config.minibatch_size a))%nat.
Proof.
  unfold Config.parse_args, Config.floordiv. intros Hparse Hn Hb Hmod.
  rewrite decide_False in Hparse by lia. simpl in Hparse.
  injection Hparse as <-. simpl in *.
  set (B := (Config.num_envs c * Config.num_steps c)%Z) in *.
  set (n := Config.num_minibatches c) in *.
  pose proof (Z.div_mod B n ltac:(lia)) as Hdiv. rewrite Hmod in Hdiv.
  assert (0 < B `div` n)%Z by nia.
  split; [done|]. rewrite <- Z2Nat.inj_mul by lia. f_equal. lia.
Qed.

(** ** The epoch loop *)

Section LoopProofs.
Context {rng agent env : Type}.
Variable C : @Optimizer.collaborators rng agent env.
Variable a : Config.args.

Local Abbreviation B := (Z.to_nat (Config.batch_size a)).

(** What a pass of the epoch loop that does not raise has done. *)
Lemma epoch_ok b s fl s' :
  Optimizer.epoch C a b s = Ok (fl, s') →
  Optimizer.st_inds s'
    = (Optimizer.shuffle C (Optimizer.st_rng s) (Optimizer.st_inds s)).2
  ∧ Optimizer.st_log s' = Optimizer.st_log s
  ∧ (∃ mbs,
       Schedule.minibatches (Optimizer.st_inds s') B (Config.minibatch_size a)
         = Ok mbs
       ∧ Optimizer.run_minibatches C b (Optimizer.st_agent s)
           (Optimizer.stats (Optimizer.st_vars s)) mbs
         = (Optimizer.st_agent s', Optimizer.stats (Optimizer.st_vars s')))
  ∧ match fl with
    | Optimizer.Break =>
        Optimizer.explained_var (Optimizer.st_vars s')
          = Optimizer.explained_var (Optimizer.st_vars s)
        ∧ ∃ tkl d,
            Config.target_kl (Config.opts a) = Some tkl
            ∧ Optimizer.stats (Optimizer.st_vars s') = Some d
            ∧ Optimizer.approx_kl d > tkl
    | Optimizer.Continue =>
        Optimizer.explained_var (Optimizer.st_vars s')
          = Some (Optimizer.explained_variance
                    (Optimizer.b_values b) (Optimizer.b_returns b))
    end.
Proof.
  unfold Optimizer.epoch.
  destruct (Optimizer.shuffle C _ _) as [g inds]. simpl.
  destruct (Schedule.minibatches inds B _) as [mbs|e] eqn:Hmbs; simpl; [|done].
  destruct (Optimizer.run_minibatches C b _ _ mbs) as [ag stats'] eqn:Hrun.
  destruct (Config.target_kl (Config.opts a)) as [tkl|]; simpl.
  - destruct stats' as [d|]; simpl; [|done].
    destruct (Rgt_dec (Optimizer.approx_kl d) tkl) as [Hgt|Hle];
      intros [= <- <-]; simpl;
      (split; [done|]); (split; [done|]); (split; [eauto|]); [|done].
    split; [done|]. by exists tkl, d.
  - intros [= <- <-]; simpl.
    split; [done|]. split; [done|]. split; [eauto|]. done.
Qed.

Lemma run_minibatches_stats b ag st mbs :
  (Optimizer.run_minibatches C b ag st mbs).2 = None → st = None ∧ mbs = [].
Proof.
  unfold Optimizer.run_minibatches. revert ag st.
  induction mbs as [|mb mbs IH]; intros ag st; simpl; [done|].
  destruct (Optimizer.minibatch_step C b ag mb) as [ag' d].
  intros H. by destruct (IH _ _ H).
Qed.

(** A pass of the epoch loop raises only for a zero minibatch size or when
    the KL test reads [approx_kl] before any minibatch has run. *)
Lemma epoch_never_raises b s :
  Config.minibatch_size a ≠ 0%Z →
  is_Some (Optimizer.stats (Optimizer.st_vars s)) →
  ∃ fl s', Optimizer.epoch C a b s = Ok (fl, s')
    ∧ is_Some (Optimizer.stats (Optimizer.st_vars s')).
Proof.
  intros Hms [d0 Hd0]. unfold Optimizer.epoch.
  destruct (Optimizer.shuffle C _ _) as [g inds]. simpl.
  unfold Schedule.minibatches, Schedule.py_range0.
  rewrite decide_False by done.
  set (starts := if decide (Config.minibatch_size a < 0)%Z then Ok [] else _).
  assert (∃ l, starts = Ok l) as [l ->]
    by (unfold starts; destruct (decide _); eauto).
  simpl.
  destruct (Optimizer.run_minibatches C b _ _ _) as [ag stats'] eqn:Hrun.
  assert (is_Some stats') as [d Hd].
  { destruct stats' as [d|]; [eauto|].
    pose proof (run_minibatches_stats b (Optimizer.st_agent s)
      (Optimizer.stats (Optimizer.st_vars s))
      ((λ start, Schedule.slice inds start
                   (start + Z.to_nat (Config.minibatch_size a))) <$> l)) as H.
    rewrite Hrun in H. destruct (H eq_refl) as [Hnone _]. congruence. }
  subst stats'.
  destruct (Config.target_kl (Config.opts a)) as [tkl|]; simpl.
  - destruct (Rgt_dec (Optimizer.approx_kl d) tkl); simpl; eauto.
  - eauto.
Qed.

Lemma epochs_ok n b s s' :
  Optimizer.epochs C a n b s = Ok s' →
  (Optimizer.st_inds s ≡ₚ Schedule.arange B →
   (∀ g l, (Optimizer.shuffle C g l).2 ≡ₚ l) →
   Optimizer.st_inds s' ≡ₚ Schedule.arange B)
  ∧ Optimizer.st_log s' = Optimizer.st_log s
  ∧ (is_Some (Optimizer.explained_var (Optimizer.st_vars s)) →
     is_Some (Optimizer.explained_var (Optimizer.st_vars s'))).
Proof.
  revert s. induction n as [|n IH]; intros s; simpl.
  - by intros [= <-].
  - destruct (Optimizer.epoch C a b s) as [[fl s1]|e] eqn:Hep; simpl; [|done].
    destruct (epoch_ok _ _ _ _ Hep) as (Hinds & Hlog & _ & Hfl).
    assert (Hperm : Optimizer.st_inds s ≡ₚ Schedule.arange B →
                    (∀ g l, (Optimizer.shuffle C g l).2 ≡ₚ l) →
                    Optimizer.st_inds s1 ≡ₚ Schedule.arange B).
    { intros Hs Hsh. rewrite Hinds. by rewrite Hsh. }
    assert (Hev : is_Some (Optimizer.explained_var (Optimizer.st_vars s)) →
                  is_Some (Optimizer.explained_var (Optimizer.st_vars s1))).
    { destruct fl; [by rewrite Hfl|]. destruct Hfl as [-> _]. done. }
    destruct fl.
    + intros Hn. destruct (IH _ Hn) as (IH1 & IH2 & IH3).
      split; [auto|]. split; [congruence|auto].
    + intros [= <-]. auto.
Qed.

End LoopProofs.

(** C6.  In every pass of the epoch loop, for a batch size that the
    (positive) number of minibatches divides evenly, the index array is
    reshuffled at the start of the pass and is a permutation of
    0..batch_size-1, and the contiguous minibatch slices of it cover every
    index exactly once: there are [num_minibatches] slices of
    [minibatch_size] indices each, they are what the minibatch loop runs
    on, and laid end to end they are the shuffled index array.  The
    shuffled array is also the index array the next pass starts from. *)
Theorem minibatches_partition_every_epoch {rng agent env : Type}
    (C : @Optimizer.collaborators rng agent env) (c : Config.cli)
    (a : Config.args) (b : Optimizer.batch) (s : Optimizer.state) :
  (∀ g l, (Optimizer.shuffle C g l).2 ≡ₚ l) →
  Config.parse_args c = Ok a →
  (0 < Config.num_minibatches c)%Z → (0 < Config.batch_size a)%Z →
  (Config.batch_size a `mod` Config.num_minibatches c = 0)%Z →
  Optimizer.st_inds s ≡ₚ Schedule.arange (Z.to_nat (Config.batch_size a)) →
  let inds := (Optimizer.shuffle C (Optimizer.st_rng s) (Optimizer.st_inds s)).2 in
  inds ≡ₚ Schedule.arange (Z.to_nat (Config.batch_size a))
  ∧ ∃ mbs,
      Schedule.minibatches inds (Z.to_nat (Config.batch_size a))
        (Config.minibatch_size a) = Ok mbs
      ∧ concat mbs = inds
      ∧ length mbs = Z.to_nat (Config.num_minibatches c)
      ∧ Forall (λ mb, length mb = Z.to_nat (Config.minibatch_size a)) mbs
      ∧ NoDup (concat mbs)
      ∧ (∀ i, i ∈ concat mbs ↔ (i < Z.to_nat (Config.batch_size a))%nat)
      ∧ ∃ fl s',
          Optimizer.epoch C a b s = Ok (fl, s')
          ∧ Optimizer.st_inds s' = inds
          ∧ Optimizer.st_agent s'
            = (Optimizer.run_minibatches C b (Optimizer.st_agent s)
                 (Optimizer.stats (Optimizer.st_vars s)) mbs).1.
Proof.
  intros Hshuffle Hparse Hn HB Hmod Hs inds.
  destruct (config_even_sizes c a Hparse Hn HB Hmod) as [Hms HBnm].
  assert (Hperm : inds ≡ₚ Schedule.arange (Z.to_nat (Config.batch_size a))).
  { unfold inds. by rewrite Hshuffle. }
  split; [done|].
  assert (Hlen : length inds
    = (Z.to_nat (Config.num_minibatches c)
       * Z.to_nat (Config.minibatch_size a))%nat).
  { rewrite Hperm. unfold Schedule.arange. rewrite length_seq. done. }
  destruct (minibatches_even inds (Z.to_nat (Config.num_minibatches c))
              (Z.to_nat (Config.minibatch_size a)) ltac:(lia) Hlen)
    as (mbs & Hmbs & Hconcat & Hcount & Hsizes).
  rewrite <- HBnm, Z2Nat.id in Hmbs by lia.
  exists mbs. rewrite Hconcat.
  split; [done|]. split; [done|]. split; [done|]. split; [done|].
  split; [rewrite Hperm; apply NoDup_seq|].
  split.
  { intros i. rewrite Hperm. unfold Schedule.arange. rewrite elem_of_seq. lia. }
  assert (Hstats : ∃ ag d,
    Optimizer.run_minibatches C b (Optimizer.st_agent s)
      (Optimizer.stats (Optimizer.st_vars s)) mbs = (ag, Some d)).
  { destruct (Optimizer.run_minibatches C b _ _ mbs) as [ag [d|]] eqn:Hrun;
      [eauto|].
    pose proof (run_minibatches_stats C b (Optimizer.st_agent s)
      (Optimizer.stats (Optimizer.st_vars s)) mbs) as H.
    rewrite Hrun in H. destruct (H eq_refl) as [_ ->].
    simpl in Hcount. lia. }
  destruct Hstats as (ag & d & Hrun).
  unfold Optimizer.epoch.
  destruct (Optimizer.shuffle C _ _) as [g inds'] eqn:Hsh.
  subst inds. simpl in *. rewrite Hmbs. simpl. rewrite Hrun.
  destruct (Config.target_kl (Config.opts a)) as [tkl|]; simpl.
  - destruct (Rgt_dec (Optimizer.approx_kl d) tkl); simpl; eauto.
  - eauto.
Qed.

(** ** Early stopping and metric emission *)

Section CycleProofs.
Context {rng agent env : Type}.
Variable C : @Optimizer.collaborators rng agent env.
Variable a : Config.args.

Lemma epochs_never_raise n b s :
  Config.minibatch_size a ≠ 0%Z →
  is_Some (Optimizer.stats (Optimizer.st_vars s)) →
  ∃ s', Optimizer.epochs C a n b s = Ok s'
    ∧ is_Some (Optimizer.stats (Optimizer.st_vars s')).
Proof.
  intros Hms. revert s. induction n as [|n IH]; intros s Hs; simpl; [eauto|].
  destruct (epoch_never_raises C a b s Hms Hs) as (fl & s1 & -> & Hs1). simpl.
  destruct fl; eauto.
Qed.

(** Once [explained_var] and the diagnostics are bound, an update cycle
    completes and emits its metrics, whether or not the epoch loop was
    left early. *)
Lemma bound_cycle_completes s :
  Config.minibatch_size a ≠ 0%Z →
  is_Some (Optimizer.stats (Optimizer.st_vars s)) →
  is_Some (Optimizer.explained_var (Optimizer.st_vars s)) →
  ∃ s' m, Optimizer.update_cycle C a s = Ok s'
    ∧ Optimizer.st_log s' = Optimizer.st_log s ++ [m]
    ∧ is_Some (Optimizer.stats (Optimizer.st_vars s'))
    ∧ is_Some (Optimizer.explained_var (Optimizer.st_vars s')).
Proof.
  intros Hms Hstats Hev. unfold Optimizer.update_cycle.
  destruct (Optimizer.rollout C _ _) as [e g].
  destruct (epochs_never_raise (Z.to_nat (Config.update_epochs (Config.opts a)))
              (Optimizer.flatten a g) (Optimizer.begin_cycle a s e) Hms Hstats)
    as (s1 & Hep & [d Hd]).
  rewrite Hep. simpl.
  destruct (epochs_ok C a _ _ _ _ Hep) as (_ & Hlog & Hev1).
  destruct (Hev1 Hev) as [ev Hev']. unfold Optimizer.emit_metrics.
  rewrite Hd, Hev'. simpl. eexists _, _. split; [done|]. simpl.
  rewrite Hlog. eauto.
Qed.

(** After a first completed cycle all later cycles complete. *)
Lemma bound_cycles_complete n s :
  Config.minibatch_size a ≠ 0%Z →
  is_Some (Optimizer.stats (Optimizer.st_vars s)) →
  is_Some (Optimizer.explained_var (Optimizer.st_vars s)) →
  ∃ s', Optimizer.cycles C a n s = Ok s'
    ∧ length (Optimizer.st_log s') = (length (Optimizer.st_log s) + n)%nat.
Proof.
  intros Hms. revert s. induction n as [|n IH]; intros s Hstats Hev; simpl.
  - eexists. split; [done|lia].
  - destruct (bound_cycle_completes s Hms Hstats Hev)
      as (s1 & m & -> & Hlog & Hstats1 & Hev1). simpl.
    destruct (IH s1 Hstats1 Hev1) as (s' & -> & Hlen).
    eexists. split; [done|]. rewrite Hlen, Hlog, length_app. simpl. lia.
Qed.

(** Leaving the epoch loop in its first pass while [explained_var] is
    unbound makes metric emission raise. *)
Lemma unbound_break_raises n b s s1 :
  Optimizer.explained_var (Optimizer.st_vars s) = None →
  Optimizer.epoch C a b s = Ok (Optimizer.Break, s1) →
  (Optimizer.epochs C a (S n) b s ≫= λ s1,
     Optimizer.emit_metrics (Optimizer.st_vars s1) ≫= λ m,
       Ok (Optimizer.log_metrics s1 m))
  = Raise (NameError "explained_var").
Proof.
  intros Hev Hep. simpl. rewrite Hep. simpl.
  destruct (epoch_ok C a _ _ _ _ Hep) as (_ & _ & _ & Hev1 & tkl & d & _ & Hd & _).
  unfold Optimizer.emit_metrics. rewrite Hd, Hev1, Hev. done.
Qed.

End CycleProofs.

(** C9 (defect in the code).  With a target KL configured, exceeding it in
    the first pass of the epoch loop of the first update cycle should abort
    the remaining passes and let training go on to metric emission and the
    next cycle.  The scripts assign [explained_var] only at the end of a
    pass that did not break, so in that case the name is unbound when the
    metrics are written and the run fails with a NameError. *)
Theorem kl_stop_in_first_pass_raises {rng agent env : Type}
    (C : @Optimizer.collaborators rng agent env) (a : Config.args)
    (ag : agent) (g : rng) (e : env) (n : Z) (s1 : Optimizer.state) :
  Config.floordiv (Config.total_timesteps (Config.opts a)) (Config.batch_size a)
    = Ok n →
  (0 < n)%Z →
  (0 < Config.update_epochs (Config.opts a))%Z →
  Optimizer.epoch C a
    (Optimizer.flatten a (Optimizer.rollout C ag e).2)
    (Optimizer.begin_cycle a (Optimizer.initial_state ag g e)
       (Optimizer.rollout C ag e).1)
    = Ok (Optimizer.Break, s1) →
  Optimizer.train C a ag g e = Raise (NameError "explained_var").
Proof.
  intros Hn Hpos Hepochs Hbreak. unfold Optimizer.train. rewrite Hn. simpl.
  destruct (Z.to_nat n) as [|k] eqn:Hk; [lia|]. simpl.
  unfold Optimizer.update_cycle. simpl.
  destruct (Optimizer.rollout C ag e) as [e1 seg]. simpl in Hbreak.
  destruct (Z.to_nat (Config.update_epochs (Config.opts a))) as [|j] eqn:Hj;
    [lia|].
  rewrite (unbound_break_raises C a j (Optimizer.flatten a seg)
             (Optimizer.begin_cycle a (Optimizer.initial_state ag g e) e1)
             s1 eq_refl Hbreak).
  done.
Qed.

(** C10 (as amended).  A batch size that the (non-zero) number of
    minibatches does not divide raises no setup error: [parse_args] accepts
    the configuration and sets [minibatch_size] to the floored quotient, so
    that for a positive number of minibatches [num_minibatches] slices of
    that size do not exhaust the batch. *)
Theorem uneven_batch_is_floored (c : Config.cli) :
  Config.num_minibatches c ≠ 0%Z →
  ((Config.num_envs c * Config.num_steps c)
     `mod` Config.num_minibatches c ≠ 0)%Z →
  ∃ a, Config.parse_args c = Ok a
    ∧ Config.batch_size a = (Config.num_envs c * Config.num_steps c)%Z
    ∧ Config.minibatch_size a
      = (Config.batch_size a `div` Config.num_minibatches c)%Z
    ∧ ((0 < Config.num_minibatches c)%Z →
       (Config.num_minibatches c * Config.minibatch_size a
        < Config.batch_size a)%Z).
Proof.
  intros Hn Hmod. unfold Config.parse_args, Config.floordiv.
  rewrite decide_False by done. simpl. eexists. split; [done|]. simpl.
  split; [done|]. split; [done|]. intros Hpos.
  pose proof (Z.div_mod (Config.num_envs c * Config.num_steps c)
                (Config.num_minibatches c) Hn).
  pose proof (Z.mod_pos_bound (Config.num_envs c * Config.num_steps c)
                (Config.num_minibatches c) Hpos).
  lia.
Qed.

(** C10, the claim as stated fails: ten samples in three minibatches are
    accepted, with a minibatch size of three. *)
Lemma uneven_batch_accepted :
  ((Config.num_envs Fixture.cli_uneven * Config.num_steps Fixture.cli_uneven)
     `mod` Config.num_minibatches Fixture.cli_uneven ≠ 0)%Z
  ∧ Config.parse_args Fixture.cli_uneven
    = Ok {| Config.opts := Fixture.cli_uneven;
            Config.batch_size := 10; Config.minibatch_size := 3 |}.
Proof. split; [done|reflexivity]. Qed.

(** A zero number of minibatches is the one size error of [parse_args]. *)
Lemma zero_minibatches_raises (c : Config.cli) :
  Config.num_minibatches c = 0%Z →
  Config.parse_args c = Raise ZeroDivisionError.
Proof.
  intros Hn. unfold Config.parse_args, Config.floordiv.
  by rewrite decide_True.
Qed.

(** ** The Beta agent *)



Lemma softplus_concentration (x : XFloat.xfloat) :
  BetaSpec.finite_entry x →
  BetaSpec.concentration_entry (XFloat.xadd (XFloat.softplus x) (XFloat.Fin 1)).
Proof.
  intros [r ->]. simpl. eexists. split; [done|].
  destruct (Rlt_dec 20 r); [lra|].
  assert (0 < ln (1 + exp r)); [|lra].
  rewrite <- ln_1. apply ln_increasing; [lra|]. pose proof (exp_pos r). lra.
Qed.

(** Finite network outputs give shape parameters above one. *)
Lemma shape_parameter_concentration (pre : list (list XFloat.xfloat)) :
  Forall (Forall BetaSpec.finite_entry) pre →
  Forall (Forall BetaSpec.concentration_entry) (BetaAgent.shape_parameter pre).
Proof.
  intros Hpre. unfold BetaAgent.shape_parameter, BetaAgent.map2d.
  apply Forall_fmap. eapply Forall_impl; [exact Hpre|].
  intros row Hrow. simpl. apply Forall_fmap.
  eapply Forall_impl; [exact Hrow|]. intros x Hx. by apply softplus_concentration.
Qed.

(** Shape parameters above one are finite: nothing is logged. *)
Lemma concentration_is_finite (alpha beta : list (list XFloat.xfloat)) :
  Forall (Forall BetaSpec.concentration_entry) alpha →
  Forall (Forall BetaSpec.concentration_entry) beta →
  BetaAgent.non_finite alpha beta = false.
Proof.
  assert (Hany : ∀ p t, (∀ x, BetaSpec.concentration_entry x → p x = false) →
    Forall (Forall BetaSpec.concentration_entry) t → BetaAgent.any p t = false).
  { intros p t Hp Ht. unfold BetaAgent.any.
    induction Ht as [|row t Hrow _ IH]; simpl; [done|]. rewrite IH.
    rewrite orb_false_r. induction Hrow as [|x row Hx _ IHrow]; simpl; [done|].
    by rewrite IHrow, (Hp x Hx). }
  intros Ha Hb. unfold BetaAgent.non_finite.
  rewrite !Hany; try done; by intros x (r & -> & _).
Qed.



(** A degenerate dimension low = high = 0 breaks only the round trip: the
    action that rescaling returns for the point 0.5 is 0, within the
    bounds. *)
Example degenerate_bounds_keep_actions_within :
  let self := AgentFixture.agent_with (XFloat.Fin 0) (XFloat.Fin 0) (XFloat.Fin 0) in
  ∃ r, BetaAgent.scale_by_action_bounds self [[XFloat.Fin 0.5]]
       = [[XFloat.Fin r]] ∧ 0 <= r <= 0.
Proof. eexists. split; [reflexivity|lra]. Qed.

(** The rescaling of the agent is the rescaling of [Module Rescale] over
    the extended reals. *)
Lemma rescale_over_extended_reals (self : BetaAgent.Agent)
    (t : list (list XFloat.xfloat)) :
  BetaAgent.scale_by_action_bounds self t
  = Rescale.scale_by_action_bounds XFloat.xadd XFloat.xsub XFloat.xmul
      (BetaAgent.action_space_low self) (BetaAgent.action_space_high self) t
  ∧ BetaAgent.inv_scale_by_action_bounds self t
    = Rescale.inv_scale_by_action_bounds XFloat.xsub XFloat.xdiv
        (BetaAgent.action_space_low self) (BetaAgent.action_space_high self)
        t.
Proof. split; reflexivity. Qed.

(** In binary32 the bounds are not kept exactly.  With low = -1 and high
    the binary32 number nearest to 0.2 (13421773 * 2^-26), [high - low]
    rounds up to 10066330 * 2^-23, and the sample 1.0 is rescaled to
    1677722 * 2^-23, about 0.20000005, above high. *)
Example binary32_action_exceeds_high :
  let low := Binary32.Finite (-1) 0 in
  let high := Binary32.Finite 13421773 (-26) in
  let sample := Binary32.Finite 1 0 in
  Binary32.ltb low high = true
  ∧ Binary32.leb (Binary32.Finite 0 0) sample = true
  ∧ Binary32.leb sample (Binary32.Finite 1 0) = true
  ∧ Binary32.sub high low = Binary32.Finite 10066330 (-23)
  ∧ Rescale.scale_by_action_bounds Binary32.add Binary32.sub Binary32.mul
      [low] [high] [[sample]]
    = [[Binary32.Finite 1677722 (-23)]]
  ∧ Binary32.ltb high (Binary32.Finite 1677722 (-23)) = true.
Proof. by vm_compute. Qed.

(** In binary32 finite bounds can have an infinite range: between the
    largest finite number and its negation, [high - low] overflows, and the
    sample 0.5 is rescaled to +infinity, the sample 0 to NaN. *)
Example binary32_range_overflows :
  let high := Binary32.Finite (2 ^ 24 - 1) 104 in
  let low := Binary32.neg high in
  Binary32.ltb low high = true
  ∧ Binary32.sub high low = Binary32.Inf false
  ∧ Rescale.scale_by_action_bounds Binary32.add Binary32.sub Binary32.mul
      [low] [high] [[Binary32.Finite 1 (-1)]; [Binary32.Finite 0 0]]
    = [[Binary32.Inf false]; [Binary32.NaN]].
Proof. by vm_compute. Qed.

(** With the bounds -0.4 and 0.4 of the Humanoid task, as binary32 numbers,
    [high - low] is exact and the sample 1.0 is rescaled to high. *)
Example binary32_symmetric_bounds :
  let high := Binary32.Finite 13421773 (-25) in
  let low := Binary32.neg high in
  Rescale.scale_by_action_bounds Binary32.add Binary32.sub Binary32.mul
    [low] [high] [[Binary32.Finite 1 0]; [Binary32.Finite 0 0]]
  = [[Binary32.Finite 13421773 (-25)]; [Binary32.Finite (-13421773) (-25)]].
Proof. by vm_compute. Qed.

(** Whatever the shape parameters are, the trace of [get_action_and_value]
    holds the construction of the distribution from them, and the function
    raises only what the distribution library raises. *)
Lemma get_action_and_value_trace (T : BetaAgent.torch) (self : BetaAgent.Agent)
    (x : list (list XFloat.xfloat)) (action : option (list (list XFloat.xfloat))) :
  let alpha := BetaAgent.shape_parameter (BetaAgent.actor_alpha_pre_softplus self x) in
  let beta := BetaAgent.shape_parameter (BetaAgent.actor_beta_pre_softplus self x) in
  let r := BetaAgent.get_action_and_value T self x action in
  (∃ rest,
     r.1 = (if BetaAgent.non_finite alpha beta
            then BetaAgent.diagnostics self else [])
           ++ BetaAgent.BetaInit alpha beta :: rest)
  ∧ (∀ e, r.2 = Raise e →
       BetaAgent.beta_init T alpha beta = Raise e
       ∨ ∃ value, BetaAgent.beta_log_prob T alpha beta value = Raise e)
  ∧ (BetaAgent.beta_init T alpha beta = Ok () →
     ∃ value, BetaAgent.BetaLogProb value ∈ r.1).
Proof.
  cbv zeta. unfold BetaAgent.get_action_and_value.
  destruct (BetaAgent.beta_init T _ _) as [[]|e0] eqn:Hinit; simpl.
  - destruct action as [act|]; simpl;
      destruct (BetaAgent.beta_log_prob T _ _ _) as [lp|e1] eqn:Hlp; simpl;
      (split; [eauto|]); (split; [intros e [= <-]; eauto|]); intros _;
      eexists; rewrite !elem_of_app, !elem_of_cons; eauto 10.
  - split; [eauto|]. split; [intros e [= <-]; eauto|]. done.
Qed.

(** C8 (as amended).  When a component of alpha or beta is NaN or infinite,
    [get_action_and_value] detects it before sampling and before the
    log-probability, logs the parameters of the alpha and of the beta
    network, and then goes on to construct the Beta distribution from these
    shape parameters and to use it; it raises nothing of its own, only what
    the distribution library raises. *)
Theorem non_finite_parameters_logged_then_used (T : BetaAgent.torch)
    (self : BetaAgent.Agent) (x : list (list XFloat.xfloat))
    (action : option (list (list XFloat.xfloat))) :
  let alpha := BetaAgent.shape_parameter (BetaAgent.actor_alpha_pre_softplus self x) in
  let beta := BetaAgent.shape_parameter (BetaAgent.actor_beta_pre_softplus self x) in
  BetaAgent.non_finite alpha beta = true →
  let r := BetaAgent.get_action_and_value T self x action in
  (∃ rest,
     r.1 = BetaAgent.diagnostics self ++ BetaAgent.BetaInit alpha beta :: rest)
  ∧ (∀ e, r.2 = Raise e →
       BetaAgent.beta_init T alpha beta = Raise e
       ∨ ∃ value, BetaAgent.beta_log_prob T alpha beta value = Raise e)
  ∧ (BetaAgent.beta_init T alpha beta = Ok () →
     ∃ value, BetaAgent.BetaLogProb value ∈ r.1).
Proof.
  intros alpha beta Hnf r.
  pose proof (get_action_and_value_trace T self x action) as H.
  cbv zeta in H. fold alpha beta r in H. by rewrite Hnf in H.
Qed.

(** C8, the claim as stated fails: an infinite alpha is logged, and then
    the distribution is constructed from it, sampled, and the call returns
    normally. *)
Lemma infinite_alpha_is_not_fatal :
  let self :=
    AgentFixture.agent_with (XFloat.Fin (-0.4)) (XFloat.Fin 0.4) XFloat.PInf in
  let alpha := BetaAgent.shape_parameter [[XFloat.PInf]] in
  let beta := BetaAgent.shape_parameter [[XFloat.Fin 0]] in
  alpha = [[XFloat.PInf]]
  ∧ BetaAgent.non_finite alpha beta = true
  ∧ ∃ rest out,
      BetaAgent.get_action_and_value AgentFixture.torch_midpoint self
        [[XFloat.Fin 0]] None
      = (BetaAgent.diagnostics self
         ++ BetaAgent.BetaInit alpha beta :: BetaAgent.BetaSample :: rest,
         Ok out).
Proof.
  cbv zeta. split; [reflexivity|]. split; [reflexivity|].
  eexists _, _. reflexivity.
Qed.

(** When the shape parameters are finite nothing is logged. *)
Lemma finite_parameters_not_logged (T : BetaAgent.torch) (self : BetaAgent.Agent)
    (x : list (list XFloat.xfloat)) (action : option (list (list XFloat.xfloat))) :
  Forall (Forall BetaSpec.finite_entry) (BetaAgent.actor_alpha_pre_softplus self x) →
  Forall (Forall BetaSpec.finite_entry) (BetaAgent.actor_beta_pre_softplus self x) →
  ∃ rest,
    (BetaAgent.get_action_and_value T self x action).1
    = BetaAgent.BetaInit
        (BetaAgent.shape_parameter (BetaAgent.actor_alpha_pre_softplus self x))
        (BetaAgent.shape_parameter (BetaAgent.actor_beta_pre_softplus self x))
      :: rest.
Proof.
  intros Ha Hb.
  destruct (get_action_and_value_trace T self x action) as [[rest Hrest] _].
  rewrite concentration_is_finite in Hrest
    by (by apply shape_parameter_concentration).
  eauto.
Qed.

(** ** The definitions on small inputs *)

(** The end-to-end scenario of the specification: four steps, one
    environment, reward 1, value 0, gamma 0.99, lambda 0.95, and the
    episode ends with the last step; the bootstrap value 5 plays no part. *)
Example gae_four_steps :
  let seg := Fixture.segment4 in
  let result :=
    Advantage.compute_gae 0.99 0.95 4 1 (Optimizer.rewards seg)
      (Optimizer.dones seg) (Optimizer.values seg)
      (Optimizer.next_value seg) (Optimizer.next_done seg) in
  at2 result.1 3 0 = 1
  ∧ at2 result.1 2 0 = 1.9405
  ∧ at2 result.1 1 0 = 2.82504025
  ∧ at2 result.2 1 0 = 2.82504025.
Proof. cbv zeta. unfold at2. simpl. repeat split; lra. Qed.

(** The same segment in plain-return mode: discounted returns. *)
Example returns_four_steps :
  let seg := Fixture.segment4 in
  let result :=
    Advantage.compute_returns 0.99 4 1 (Optimizer.rewards seg)
      (Optimizer.dones seg) (Optimizer.values seg)
      (Optimizer.next_value seg) (Optimizer.next_done seg) in
  at2 result.2 3 0 = 1 ∧ at2 result.2 2 0 = 1.99 ∧ at2 result.1 2 0 = 1.99.
Proof. cbv zeta. unfold at2. simpl. repeat split; lra. Qed.

Example minibatches_of_four :
  Schedule.minibatches [3; 2; 1; 0]%nat 4 2 = Ok [[3; 2]; [1; 0]]%nat.
Proof. reflexivity. Qed.

(** Ten indices in slices of three: a fourth, short slice takes the rest. *)
Example minibatches_of_ten :
  Schedule.minibatches (Schedule.arange 10) 10 3
  = Ok [[0; 1; 2]; [3; 4; 5]; [6; 7; 8]; [9]]%nat.
Proof. reflexivity. Qed.

Example minibatches_zero_step :
  Schedule.minibatches (Schedule.arange 4) 4 0 = Raise ValueError.
Proof. reflexivity. Qed.

(** With bounds -0.4 and 0.4 the midpoint sample is the action 0. *)
Example scale_midpoint :
  ∃ r, BetaAgent.scale_by_action_bounds
         (AgentFixture.agent_with (XFloat.Fin (-0.4)) (XFloat.Fin 0.4) (XFloat.Fin 0))
         [[XFloat.Fin 0.5]] = [[XFloat.Fin r]] ∧ r = 0.
Proof. eexists. split; [reflexivity|lra]. Qed.

(** ** The theorems at concrete inputs *)

Ltac shape2_concrete := split; [reflexivity|repeat constructor].

(** The recursion of C4 at the last step of a four-step segment with
    reward 1, value 0, gamma 0.99, lambda 0.95 and an episode end. *)
Lemma gae_backward_recursion_witness :
  let seg := Fixture.segment4 in
  let result :=
    Advantage.compute_gae 0.99 0.95 4 1 (Optimizer.rewards seg)
      (Optimizer.dones seg) (Optimizer.values seg)
      (Optimizer.next_value seg) (Optimizer.next_done seg) in
  at2 result.1 3 0 =
    GaeSpec.delta 0.99 4 (Optimizer.rewards seg) (Optimizer.dones seg)
      (Optimizer.values seg) (Optimizer.next_value seg)
      (Optimizer.next_done seg) 3 0
    + 0.99 * 0.95
      * GaeSpec.nextnonterminal 4 (Optimizer.dones seg)
          (Optimizer.next_done seg) 3 0
      * GaeSpec.next_advantage 4 result.1 3 0
  ∧ at2 result.2 3 0 = at2 result.1 3 0 + at2 (Optimizer.values seg) 3 0.
Proof.
  apply (gae_backward_recursion 0.99 0.95 4 1
           (Optimizer.rewards Fixture.segment4)
           (Optimizer.dones Fixture.segment4)
           (Optimizer.values Fixture.segment4)
           (Optimizer.next_value Fixture.segment4)
           (Optimizer.next_done Fixture.segment4));
    first [shape2_concrete | reflexivity | lia].
Defined.

(** C5 on the same segment, with the bootstrap values 5 and -7. *)
Lemma terminal_segment_ignores_bootstrap_witness :
  let seg := Fixture.segment4 in
  let advantages nv :=
    (Advantage.compute_gae 0.99 0.95 4 1 (Optimizer.rewards seg)
       (Optimizer.dones seg) (Optimizer.values seg) nv (replicate 1 1)).1 in
  at2 (advantages [5]) (4 - 1) 0
    = at2 (Optimizer.rewards seg) (4 - 1) 0 - at2 (Optimizer.values seg) (4 - 1) 0
  ∧ at2 (advantages [5]) (4 - 1) 0 = at2 (advantages [-7]) (4 - 1) 0.
Proof.
  apply (terminal_segment_ignores_bootstrap 0.99 0.95 4 1
           (Optimizer.rewards Fixture.segment4)
           (Optimizer.dones Fixture.segment4)
           (Optimizer.values Fixture.segment4) [5] [-7]);
    first [shape2_concrete | reflexivity | lia].
Defined.

(** C6 for four samples in two minibatches, with a shuffle that reverses
    the index array. *)
Lemma minibatches_partition_every_epoch_witness :
  let C := Fixture.collaborators_with 1 in
  let s := Optimizer.begin_cycle Fixture.args_even
             (Optimizer.initial_state () () ()) () in
  let inds := (Optimizer.shuffle C (Optimizer.st_rng s) (Optimizer.st_inds s)).2 in
  inds ≡ₚ Schedule.arange 4
  ∧ ∃ mbs,
      Schedule.minibatches inds 4 2 = Ok mbs
      ∧ concat mbs = inds
      ∧ length mbs = 2%nat
      ∧ Forall (λ mb, length mb = 2%nat) mbs
      ∧ NoDup (concat mbs)
      ∧ (∀ i, i ∈ concat mbs ↔ (i < 4)%nat)
      ∧ ∃ fl s',
          Optimizer.epoch C Fixture.args_even
            (Optimizer.flatten Fixture.args_even Fixture.segment4) s
            = Ok (fl, s')
          ∧ Optimizer.st_inds s' = inds
          ∧ Optimizer.st_agent s'
            = (Optimizer.run_minibatches C
                 (Optimizer.flatten Fixture.args_even Fixture.segment4)
                 (Optimizer.st_agent s)
                 (Optimizer.stats (Optimizer.st_vars s)) mbs).1.
Proof.
  apply (minibatches_partition_every_epoch (Fixture.collaborators_with 1)
           Fixture.cli_even Fixture.args_even
           (Optimizer.flatten Fixture.args_even Fixture.segment4)
           (Optimizer.begin_cycle Fixture.args_even
              (Optimizer.initial_state () () ()) ())).
  - intros g l. simpl. apply reverse_Permutation.
  - reflexivity.
  - simpl. lia.
  - simpl. lia.
  - reflexivity.
  - reflexivity.
Defined.

(** C9 for two update cycles of two epochs, a threshold of 0.5 and an
    approximate KL of 1 in every minibatch: the run raises in its first
    cycle. *)
Lemma kl_stop_in_first_pass_raises_witness :
  Optimizer.train (Fixture.collaborators_with 1) Fixture.args_even () () ()
  = Raise (NameError "explained_var").
Proof.
  eapply (kl_stop_in_first_pass_raises (Fixture.collaborators_with 1)
            Fixture.args_even () () () 2).
  - reflexivity.
  - lia.
  - simpl. lia.
  - unfold Optimizer.epoch. simpl.
    destruct (Rgt_dec 1 0.5) as [_|Hle]; [reflexivity|exfalso; lra].
Defined.

(** C10 for ten samples in three minibatches. *)
Lemma uneven_batch_is_floored_witness :
  ∃ a, Config.parse_args Fixture.cli_uneven = Ok a
    ∧ Config.batch_size a = (1 * 10)%Z
    ∧ Config.minibatch_size a = (Config.batch_size a `div` 3)%Z
    ∧ ((0 < 3)%Z → (3 * Config.minibatch_size a < Config.batch_size a)%Z).
Proof.
  apply (uneven_batch_is_floored Fixture.cli_uneven); by vm_compute.
Defined.


(** C8 for an alpha network that returns an infinity. *)
Lemma non_finite_parameters_logged_then_used_witness :
  let self :=
    AgentFixture.agent_with (XFloat.Fin (-0.4)) (XFloat.Fin 0.4) XFloat.PInf in
  let alpha := BetaAgent.shape_parameter [[XFloat.PInf]] in
  let beta := BetaAgent.shape_parameter [[XFloat.Fin 0]] in
  let r :=
    BetaAgent.get_action_and_value AgentFixture.torch_midpoint self
      [[XFloat.Fin 0]] None in
  (∃ rest,
     r.1 = BetaAgent.diagnostics self ++ BetaAgent.BetaInit alpha beta :: rest)
  ∧ (∀ e, r.2 = Raise e →
       BetaAgent.beta_init AgentFixture.torch_midpoint alpha beta = Raise e
       ∨ ∃ value,
           BetaAgent.beta_log_prob AgentFixture.torch_midpoint alpha beta value
           = Raise e)
  ∧ (BetaAgent.beta_init AgentFixture.torch_midpoint alpha beta = Ok () →
     ∃ value, BetaAgent.BetaLogProb value ∈ r.1).
Proof.
  apply (non_finite_parameters_logged_then_used AgentFixture.torch_midpoint
           (AgentFixture.agent_with (XFloat.Fin (-0.4)) (XFloat.Fin 0.4)
              XFloat.PInf)
           [[XFloat.Fin 0]] None).
  reflexivity.
Defined.

(** * Further properties of the code *)

(** ** Advantage estimator: the plain-return branch and both branches *)

Lemma at2_zip_vsub T N a b t n :
  shape2 T N a → shape2 T N b → (t < T)%nat → (n < N)%nat →
  at2 (zip_with vsub a b) t n = at2 a t n - at2 b t n.
Proof.
  intros [Hla Ha] [Hlb Hb] Ht Hn. unfold at2.
  rewrite lookup_zip_with.
  destruct (lookup_lt_is_Some_2 a t) as [u Hu]; [lia|].
  destruct (lookup_lt_is_Some_2 b t) as [v Hv]; [lia|].
  rewrite Hu, Hv. simpl. unfold vsub. rewrite lookup_zip_with.
  pose proof (Forall_lookup_1 _ _ _ _ Ha Hu) as Hlu.
  pose proof (Forall_lookup_1 _ _ _ _ Hb Hv) as Hlv. simpl in Hlu, Hlv.
  destruct (lookup_lt_is_Some_2 u n) as [x Hx]; [lia|].
  destruct (lookup_lt_is_Some_2 v n) as [y Hy]; [lia|].
  by rewrite Hx, Hy.
Qed.

Lemma shape2_zip_with f T N a b :
  shape2 T N a → shape2 T N b →
  shape2 T N (zip_with (zip_with f) a b).
Proof.
  intros [Hla Ha] [Hlb Hb]. split; [rewrite length_zip_with; lia|].
  apply Forall_lookup_2. intros t r Hr.
  apply lookup_zip_with_Some in Hr as (u & v & -> & Hu & Hv).
  pose proof (Forall_lookup_1 _ _ _ _ Ha Hu) as Hlu.
  pose proof (Forall_lookup_1 _ _ _ _ Hb Hv) as Hlv. simpl in Hlu, Hlv.
  rewrite length_zip_with. lia.
Qed.

(** Two tables of the same shape with the same entries are equal. *)
Lemma shape2_ext T N (a b : list (list R)) :
  shape2 T N a → shape2 T N b →
  (∀ t n, (t < T)%nat → (n < N)%nat → at2 a t n = at2 b t n) →
  a = b.
Proof.
  intros [Hla Ha] [Hlb Hb] Heq. apply list_eq. intros t.
  destruct (decide (t < T)%nat) as [Ht|Ht].
  - destruct (lookup_lt_is_Some_2 a t) as [u Hu]; [lia|].
    destruct (lookup_lt_is_Some_2 b t) as [v Hv]; [lia|].
    rewrite Hu, Hv. f_equal.
    pose proof (Forall_lookup_1 _ _ _ _ Ha Hu) as Hlu.
    pose proof (Forall_lookup_1 _ _ _ _ Hb Hv) as Hlv. simpl in Hlu, Hlv.
    apply list_eq. intros n.
    destruct (decide (n < N)%nat) as [Hn|Hn].
    + specialize (Heq t n Ht Hn). unfold at2 in Heq. rewrite Hu, Hv in Heq.
      simpl in Heq.
      destruct (lookup_lt_is_Some_2 u n) as [x Hx]; [lia|].
      destruct (lookup_lt_is_Some_2 v n) as [y Hy]; [lia|].
      rewrite Hx, Hy in *. simpl in Heq. by rewrite Heq.
    + rewrite !lookup_ge_None_2 by lia. done.
  - rewrite !lookup_ge_None_2 by lia. done.
Qed.

Section ReturnProofs.
Variables (gamma : R) (T N : nat).
Variables (rewards dones values : list (list R)).
Variables (next_value next_done : list R).
Hypothesis Hrewards : shape2 T N rewards.
Hypothesis Hdones : shape2 T N dones.
Hypothesis Hnext_value : length next_value = N.
Hypothesis Hnext_done : length next_done = N.

Local Abbreviation rstep :=
  (Advantage.returns_step gamma T N rewards dones next_value next_done).

Local Abbreviation rinv := (λ (k : nat) (returns : list (list R)),
  shape2 T N returns
  ∧ ∀ t n, (k ≤ t < T)%nat → (n < N)%nat →
      at2 returns t n =
        at2 rewards t n
        + gamma * GaeSpec.nextnonterminal T dones next_done t n
          * ReturnSpec.next_return T next_value returns t n).

Lemma returns_inv_step k returns :
  (k < T)%nat → rinv (S k) returns → rinv k (rstep returns k).
Proof.
  intros Hk [Hshape Heq]. pose proof (proj1 Hshape) as Hlen.
  unfold Advantage.returns_step.
  set (nn := if decide (k = (T - 1)%nat)
             then ((scalar 1 - row next_done)%T, row next_value)
             else ((scalar 1 - Advantage.row_at dones (k + 1))%T,
                   Advantage.row_at returns (k + 1))).
  assert (Hnn : broadcasts N nn.1 ∧ broadcasts N nn.2
    ∧ (∀ n, (n < N)%nat →
         at1 nn.1 n = GaeSpec.nextnonterminal T dones next_done k n
         ∧ at1 nn.2 n = ReturnSpec.next_return T next_value returns k n)).
  { unfold nn, GaeSpec.nextnonterminal, ReturnSpec.next_return.
    destruct (decide (k = (T - 1)%nat)) as [->|Hne]; cbn [fst snd].
    - split; [unfold tsub; solve_broadcasts|]. split; [done|].
      intros n Hn. split; [|done].
      unfold tsub. rewrite (at1_lift2 _ N); [done|solve_broadcasts..|done].
    - assert (k + 1 < T)%nat by lia.
      split; [unfold tsub; solve_broadcasts|].
      split; [solve_broadcasts|].
      intros n Hn. rewrite <- !at1_row_at. split; [|done].
      unfold tsub. rewrite (at1_lift2 _ N); [done|solve_broadcasts..|done]. }
  destruct nn as [nextnonterminal next_return]. simpl in Hnn.
  destruct Hnn as (Hbn & Hbr & Hat).
  set (new := (Advantage.row_at rewards k
               + scalar gamma * nextnonterminal * next_return)%T).
  assert (Hbnew : broadcasts N new).
  { unfold new, tadd, tmul. solve_broadcasts. }
  assert (Hnew : ∀ n, (n < N)%nat →
    at1 new n =
      at2 rewards k n
      + gamma * GaeSpec.nextnonterminal T dones next_done k n
        * ReturnSpec.next_return T next_value returns k n).
  { intros n Hn. unfold new, tadd, tmul. destruct (Hat n Hn) as [Hnt Hnr].
    rewrite !(at1_lift2 _ N), at1_row_at, Hnt, Hnr;
      [done|solve_broadcasts..]. }
  split; [apply shape2_insert; [done|by apply length_to_row]|].
  intros t n Ht Hn.
  assert (Hnext : ReturnSpec.next_return T next_value
                    (<[k:=to_row N new]> returns) t n
                  = ReturnSpec.next_return T next_value returns t n).
  { unfold ReturnSpec.next_return.
    destruct (decide (t = (T - 1)%nat)); [done|].
    apply at2_insert_ne. lia. }
  rewrite Hnext. destruct (decide (t = k)) as [->|Hne].
  - rewrite at2_insert_eq by lia. rewrite at1_to_row by done. by apply Hnew.
  - rewrite at2_insert_ne by done. apply Heq; [lia|done].
Qed.

Lemma returns_inv_fold k returns :
  (k ≤ T)%nat → rinv k returns →
  rinv 0%nat (foldl rstep returns (reverse (seq 0 k))).
Proof.
  revert returns. induction k as [|k IH]; intros returns Hk Hinv; [done|].
  rewrite seq_S, reverse_app. simpl.
  apply IH; [lia|]. apply returns_inv_step; [lia|done].
Qed.

Lemma returns_loop_invariant :
  rinv 0%nat
    (foldl rstep (Advantage.zeros_like rewards) (reverse (seq 0 T))).
Proof.
  apply returns_inv_fold; [done|]. split; [by apply shape2_zeros_like|].
  intros t n Ht. lia.
Qed.

End ReturnProofs.

Lemma compute_returns_equation gamma T N rewards dones values next_value
    next_done t n :
  shape2 T N rewards → shape2 T N dones → shape2 T N values →
  length next_value = N → length next_done = N →
  (t < T)%nat → (n < N)%nat →
  let result :=
    Advantage.compute_returns gamma T N rewards dones values next_value
      next_done in
  shape2 T N result.2 ∧ shape2 T N result.1
  ∧ at2 result.2 t n =
      at2 rewards t n
      + gamma * GaeSpec.nextnonterminal T dones next_done t n
        * ReturnSpec.next_return T next_value result.2 t n
  ∧ at2 result.1 t n = at2 result.2 t n - at2 values t n.
Proof.
  intros Hr Hd Hv Hnv Hnd Ht Hn. cbv zeta. unfold Advantage.compute_returns.
  destruct (returns_loop_invariant gamma T N rewards dones next_value
              next_done Hr Hd Hnv Hnd) as [Hshape Heq].
  cbn [fst snd]. split; [done|]. split; [by apply shape2_zip_with|].
  split; [apply Heq; [lia|done]|]. by apply (at2_zip_vsub T N).
Qed.

(** X1.  In plain-return mode the returns obey the backward recursion
    return[t] = reward[t] + gamma * nextnonterminal * next_return, where the
    next return of the last step is the bootstrap value and otherwise row
    t+1 of the returns, and advantage[t] = return[t] - value[t]. *)
Theorem plain_return_recursion gamma T N rewards dones values next_value
    next_done :
  shape2 T N rewards → shape2 T N dones → shape2 T N values →
  length next_value = N → length next_done = N →
  ∀ t n, (t < T)%nat → (n < N)%nat →
    let result :=
      Advantage.compute_returns gamma T N rewards dones values next_value
        next_done in
    at2 result.2 t n =
      at2 rewards t n
      + gamma * GaeSpec.nextnonterminal T dones next_done t n
        * ReturnSpec.next_return T next_value result.2 t n
    ∧ at2 result.1 t n = at2 result.2 t n - at2 values t n.
Proof.
  intros Hr Hd Hv Hnv Hnd t n Ht Hn.
  by destruct (compute_returns_equation gamma T N rewards dones values
                 next_value next_done t n Hr Hd Hv Hnv Hnd Ht Hn)
    as (_ & _ & ? & ?).
Qed.

Lemma compute_gae_shapes gamma gae_lambda T N rewards dones values next_value
    next_done :
  shape2 T N rewards → shape2 T N dones → shape2 T N values →
  length next_value = N → length next_done = N →
  let result :=
    Advantage.compute_gae gamma gae_lambda T N rewards dones values
      next_value next_done in
  shape2 T N result.1 ∧ shape2 T N result.2.
Proof.
  intros Hr Hd Hv Hnv Hnd. cbv zeta.
  destruct (gae_loop_invariant gamma gae_lambda T N rewards dones values
              next_value next_done Hr Hd Hv Hnv Hnd) as (Hshape & _).
  unfold Advantage.compute_gae. cbn [fst snd].
  split; [done|]. by apply shape2_zip_with.
Qed.

Lemma compute_returns_shapes gamma T N rewards dones values next_value
    next_done :
  shape2 T N rewards → shape2 T N dones → shape2 T N values →
  length next_value = N → length next_done = N →
  let result :=
    Advantage.compute_returns gamma T N rewards dones values next_value
      next_done in
  shape2 T N result.1 ∧ shape2 T N result.2.
Proof.
  intros Hr Hd Hv Hnv Hnd. cbv zeta. unfold Advantage.compute_returns.
  destruct (returns_loop_invariant gamma T N rewards dones next_value
              next_done Hr Hd Hnv Hnd) as [Hshape _].
  cbn [fst snd]. split; [by apply shape2_zip_with|done].
Qed.

Lemma estimate_shapes gamma gae_lambda T N rewards dones values
    next_value next_done (gae : bool) :
  shape2 T N rewards → shape2 T N dones → shape2 T N values →
  length next_value = N → length next_done = N →
  shape2 T N
    (Advantage.estimate gamma gae_lambda T N rewards dones values next_value
       next_done gae).1
  ∧ shape2 T N
      (Advantage.estimate gamma gae_lambda T N rewards dones values
         next_value next_done gae).2.
Proof.
  intros Hr Hd Hv Hnv Hnd. unfold Advantage.estimate. destruct gae.
  - by apply compute_gae_shapes.
  - by apply compute_returns_shapes.
Qed.

(** X2.  Whatever the mode, the estimator returns an advantage table and a
    return table with the shape of the rollout buffers: [T] rows of [N]
    entries. *)
Theorem estimate_keeps_shape gamma gae_lambda T N rewards dones values
    next_value next_done (gae : bool) :
  shape2 T N rewards → shape2 T N dones → shape2 T N values →
  length next_value = N → length next_done = N →
  let result :=
    Advantage.estimate gamma gae_lambda T N rewards dones values next_value
      next_done gae in
  shape2 T N result.1 ∧ shape2 T N result.2.
Proof.
  intros Hr Hd Hv Hnv Hnd. cbv zeta.
  by apply estimate_shapes.
Qed.

(** X4.  An episode end inside the segment cuts the recursion: when the
    done flag stored in row t+1 is set for an environment, the advantage of
    step t is reward minus value in either mode, whatever follows in the
    segment; the return of step t is the reward in plain-return mode, and
    in GAE mode it is that advantage plus the value, as the code adds
    them. *)
Theorem episode_end_cuts_recursion gamma gae_lambda T N rewards dones values
    next_value next_done (gae : bool) :
  shape2 T N rewards → shape2 T N dones → shape2 T N values →
  length next_value = N → length next_done = N →
  ∀ t n, (t + 1 < T)%nat → (n < N)%nat → at2 dones (t + 1) n = 1 →
    let result :=
      Advantage.estimate gamma gae_lambda T N rewards dones values next_value
        next_done gae in
    at2 result.1 t n = at2 rewards t n - at2 values t n
    ∧ at2 result.2 t n
      = if gae then (at2 rewards t n - at2 values t n) + at2 values t n
        else at2 rewards t n.
Proof.
  intros Hr Hd Hv Hnv Hnd t n Ht Hn Hdone. unfold Advantage.estimate.
  assert (Hnt : GaeSpec.nextnonterminal T dones next_done t n = 0).
  { unfold GaeSpec.nextnonterminal. rewrite decide_False by lia.
    rewrite Hdone. lra. }
  destruct gae; cbv zeta.
  - destruct (gae_advantage_equation gamma gae_lambda T N rewards dones
                values next_value next_done t n Hr Hd Hv Hnv Hnd
                ltac:(lia) Hn) as [Hshape Ha].
    cbv zeta in Ha.
    assert (Hadv :
      at2 (Advantage.compute_gae gamma gae_lambda T N rewards dones values
             next_value next_done).1 t n
      = at2 rewards t n - at2 values t n).
    { rewrite Ha. unfold GaeSpec.delta. rewrite Hnt. lra. }
    split; [exact Hadv|].
    unfold Advantage.compute_gae in *. cbn [fst snd] in *.
    rewrite (at2_zip_vadd T N) by (done || lia). by rewrite Hadv.
  - destruct (compute_returns_equation gamma T N rewards dones values
                next_value next_done t n Hr Hd Hv Hnv Hnd ltac:(lia) Hn)
      as (_ & _ & Hb & Hc).
    cbv zeta in Hb, Hc. rewrite Hc, Hb, Hnt. split; lra.
Qed.

(** X5.  With gamma = 0 the estimator has a closed form: in either mode the
    advantages are rewards minus values; the returns are the rewards in
    plain-return mode, and in GAE mode they are these advantages plus the
    values, as the code adds them. *)
Theorem estimate_at_gamma_zero gae_lambda T N rewards dones values next_value
    next_done (gae : bool) :
  shape2 T N rewards → shape2 T N dones → shape2 T N values →
  length next_value = N → length next_done = N →
  Advantage.estimate 0 gae_lambda T N rewards dones values next_value
    next_done gae
  = (zip_with vsub rewards values,
     if gae then zip_with vadd (zip_with vsub rewards values) values
     else rewards).
Proof.
  intros Hr Hd Hv Hnv Hnd.
  assert (Hadv : shape2 T N (zip_with vsub rewards values))
    by (by apply shape2_zip_with).
  destruct (estimate_shapes 0 gae_lambda T N rewards dones values
              next_value next_done gae Hr Hd Hv Hnv Hnd) as [Hsa Hsr].
  unfold Advantage.estimate in *. destruct gae.
  - assert (Ha : (Advantage.compute_gae 0 gae_lambda T N rewards dones values
                    next_value next_done).1 = zip_with vsub rewards values).
    { apply (shape2_ext T N); [done..|]. intros t n Ht Hn.
      rewrite (at2_zip_vsub T N) by done.
      destruct (gae_advantage_equation 0 gae_lambda T N rewards dones values
                  next_value next_done t n Hr Hd Hv Hnv Hnd Ht Hn) as [_ He].
      cbv zeta in He. rewrite He. unfold GaeSpec.delta. lra. }
    unfold Advantage.compute_gae in *. cbn [fst snd] in *. by rewrite Ha.
  - apply injective_projections; cbn [fst snd];
      (apply (shape2_ext T N); [done..|]); intros t n Ht Hn;
      rewrite ?(at2_zip_vsub T N) by done;
      destruct (compute_returns_equation 0 T N rewards dones values
                  next_value next_done t n Hr Hd Hv Hnv Hnd Ht Hn)
        as (_ & _ & Hb & Hc); cbv zeta in Hb, Hc.
    + rewrite Hc, Hb. lra.
    + rewrite Hb. lra.
Qed.

(** The estimator reads the done flags only through the next-non-terminal
    coefficients. *)
Lemma estimate_ext gamma gae_lambda T N rewards dones dones' values next_value
    next_done (gae : bool) :
  shape2 T N rewards → shape2 T N dones → shape2 T N dones' →
  shape2 T N values → length next_value = N → length next_done = N →
  (∀ t n, (t < T)%nat → (n < N)%nat →
     GaeSpec.nextnonterminal T dones' next_done t n
     = GaeSpec.nextnonterminal T dones next_done t n) →
  Advantage.estimate gamma gae_lambda T N rewards dones' values next_value
    next_done gae
  = Advantage.estimate gamma gae_lambda T N rewards dones values next_value
      next_done gae.
Proof.
  intros Hr Hd Hd' Hv Hnv Hnd Hnt.
  destruct (estimate_shapes gamma gae_lambda T N rewards dones values
              next_value next_done gae Hr Hd Hv Hnv Hnd) as [Hsa Hsr].
  destruct (estimate_shapes gamma gae_lambda T N rewards dones' values
              next_value next_done gae Hr Hd' Hv Hnv Hnd) as [Hsa' Hsr'].
  unfold Advantage.estimate in *. destruct gae.
  - assert (Hentry : ∀ k t n, (t + k = T - 1)%nat → (t < T)%nat → (n < N)%nat →
      at2 (Advantage.compute_gae gamma gae_lambda T N rewards dones' values
             next_value next_done).1 t n
      = at2 (Advantage.compute_gae gamma gae_lambda T N rewards dones values
               next_value next_done).1 t n).
    { intros k. induction k as [|k IH]; intros t n Hk Ht Hn;
        destruct (gae_advantage_equation gamma gae_lambda T N rewards dones
                    values next_value next_done t n Hr Hd Hv Hnv Hnd Ht Hn)
          as [_ Ha];
        destruct (gae_advantage_equation gamma gae_lambda T N rewards dones'
                    values next_value next_done t n Hr Hd' Hv Hnv Hnd Ht Hn)
          as [_ Ha'];
        cbv zeta in Ha, Ha'; rewrite Ha, Ha';
        unfold GaeSpec.delta, GaeSpec.next_advantage; rewrite (Hnt t n Ht Hn).
      - rewrite !decide_True by lia. done.
      - rewrite !decide_False by lia.
        by rewrite (IH (t + 1)%nat n) by lia. }
    assert (Hadv :
      (Advantage.compute_gae gamma gae_lambda T N rewards dones' values
         next_value next_done).1
      = (Advantage.compute_gae gamma gae_lambda T N rewards dones values
           next_value next_done).1).
    { apply (shape2_ext T N); [done..|]. intros t n Ht Hn.
      apply (Hentry (T - 1 - t)%nat); [lia|done..]. }
    apply injective_projections; [done|].
    unfold Advantage.compute_gae in *. cbn [fst snd] in *. by rewrite Hadv.
  - assert (Hentry : ∀ k t n, (t + k = T - 1)%nat → (t < T)%nat → (n < N)%nat →
      at2 (Advantage.compute_returns gamma T N rewards dones' values
             next_value next_done).2 t n
      = at2 (Advantage.compute_returns gamma T N rewards dones values
               next_value next_done).2 t n).
    { intros k. induction k as [|k IH]; intros t n Hk Ht Hn;
        destruct (compute_returns_equation gamma T N rewards dones values
                    next_value next_done t n Hr Hd Hv Hnv Hnd Ht Hn)
          as (_ & _ & Hb & _);
        destruct (compute_returns_equation gamma T N rewards dones' values
                    next_value next_done t n Hr Hd' Hv Hnv Hnd Ht Hn)
          as (_ & _ & Hb' & _);
        cbv zeta in Hb, Hb'; rewrite Hb, Hb';
        unfold ReturnSpec.next_return; rewrite (Hnt t n Ht Hn).
      - rewrite !decide_True by lia. done.
      - rewrite !decide_False by lia.
        by rewrite (IH (t + 1)%nat n) by lia. }
    assert (Hret :
      (Advantage.compute_returns gamma T N rewards dones' values next_value
         next_done).2
      = (Advantage.compute_returns gamma T N rewards dones values next_value
           next_done).2).
    { apply (shape2_ext T N); [done..|]. intros t n Ht Hn.
      apply (Hentry (T - 1 - t)%nat); [lia|done..]. }
    apply injective_projections; [|done].
    unfold Advantage.compute_returns in *. cbn [fst snd] in *. by rewrite Hret.
Qed.

(** X6.  The estimator never reads row 0 of the done buffer: replacing the
    flags stored at the first step of the segment changes neither the
    advantages nor the returns, in either mode. *)
Theorem estimate_ignores_first_done_row gamma gae_lambda T N rewards dones
    values next_value next_done (gae : bool) (d : list R) :
  shape2 T N rewards → shape2 T N dones → shape2 T N values →
  length next_value = N → length next_done = N → length d = N →
  Advantage.estimate gamma gae_lambda T N rewards (<[0%nat:=d]> dones) values
    next_value next_done gae
  = Advantage.estimate gamma gae_lambda T N rewards dones values next_value
      next_done gae.
Proof.
  intros Hr Hd Hv Hnv Hnd Hlen.
  apply estimate_ext; [done|done|by apply shape2_insert|done..|].
  intros t n Ht Hn. unfold GaeSpec.nextnonterminal.
  destruct (decide (t = (T - 1)%nat)); [done|].
  rewrite at2_insert_ne by lia. done.
Qed.

(** ** The rollout loop *)

Section RolloutProofs.
Context {agent rng env : Type}.
Variable I : @Rollout.interfaces agent rng env.
Variable num_envs : Z.
Variable ag : agent.

Local Abbreviation run := (Rollout.interact I ag).

(** After [k] steps the first [k] rows of every buffer are the
    interactions so far and the rows behind them are untouched. *)
Lemma rollout_prefix (k : nat) (s : Rollout.state) :
  let s' := Rollout.rollout I num_envs ag k s in
  let r := run k (Rollout.the_rng s) (Rollout.the_env s)
             (Rollout.next_obs s) (Rollout.next_done s) in
  let b := Rollout.buf s in
  let b' := Rollout.buf s' in
  (k ≤ length (Rollout.obs b))%nat → (k ≤ length (Rollout.actions b))%nat →
  (k ≤ length (Rollout.logprobs b))%nat → (k ≤ length (Rollout.rewards b))%nat →
  (k ≤ length (Rollout.dones b))%nat → (k ≤ length (Rollout.values b))%nat →
  Rollout.global_step s' = (Rollout.global_step s + Z.of_nat k * num_envs)%Z
  ∧ (Rollout.the_rng s', Rollout.the_env s', Rollout.next_obs s',
     Rollout.next_done s') = r.2
  ∧ Rollout.obs b' = (Rollout.tr_obs <$> r.1) ++ drop k (Rollout.obs b)
  ∧ Rollout.actions b'
    = (Rollout.tr_action <$> r.1) ++ drop k (Rollout.actions b)
  ∧ Rollout.logprobs b'
    = (Rollout.tr_logprob <$> r.1) ++ drop k (Rollout.logprobs b)
  ∧ Rollout.rewards b'
    = (Rollout.tr_reward <$> r.1) ++ drop k (Rollout.rewards b)
  ∧ Rollout.dones b' = (Rollout.tr_done <$> r.1) ++ drop k (Rollout.dones b)
  ∧ Rollout.values b' = (Rollout.tr_value <$> r.1) ++ drop k (Rollout.values b)
  ∧ length r.1 = k.
Proof.
  cbv zeta. induction k as [|k IH]; intros Ho Ha Hl Hr Hd Hv.
  - unfold Rollout.rollout. simpl. rewrite !drop_0.
    repeat match goal with |- _ ∧ _ => split end; try done. lia.
  - destruct IH as (Hgs & Hfin & Hobs & Hact & Hlog & Hrew & Hdon & Hval & Hlen);
      [lia..|].
    unfold Rollout.rollout in *. rewrite seq_S, foldl_app. simpl.
    set (s1 := foldl (Rollout.rollout_step I num_envs ag) s (seq 0 k)) in *.
    destruct (run k (Rollout.the_rng s) (Rollout.the_env s)
                (Rollout.next_obs s) (Rollout.next_done s))
      as [trs [[[g1 e1] o1] d1]] eqn:Hrun.
    simpl in Hfin, Hobs, Hact, Hlog, Hrew, Hdon, Hval, Hlen.
    injection Hfin as Hg1 He1 Ho1 Hd1.
    unfold Rollout.rollout_step. rewrite Hg1, He1, Ho1, Hd1.
    destruct (Rollout.get_action_and_value I ag g1 o1)
      as [g2 [[action logprob] value]].
    destruct (Rollout.env_step I e1 action) as [e2 [[o2 reward] d2]].
    simpl. rewrite Hobs, Hact, Hlog, Hrew, Hdon, Hval, !fmap_app. simpl.
    assert (Hins : ∀ (A : Type) (f : Rollout.transition → A) (l : list A) (x : A),
      (S k ≤ length l)%nat →
      <[k:=x]> ((f <$> trs) ++ drop k l) = ((f <$> trs) ++ [x]) ++ drop (S k) l).
    { intros A f l x Hl'. rewrite insert_app_r_alt by (rewrite length_fmap; lia).
      rewrite length_fmap, Hlen, Nat.sub_diag.
      destruct (drop k l) as [|y l'] eqn:Hdrop.
      - apply (f_equal length) in Hdrop. rewrite length_drop in Hdrop.
        simpl in Hdrop. lia.
      - simpl. rewrite <- app_assoc. simpl. do 2 f_equal.
        replace (S k) with (k + 1)%nat by lia.
        rewrite <- drop_drop, Hdrop. done. }
    rewrite !Hins by lia.
    repeat match goal with |- _ ∧ _ => split end; try done; [lia|].
    rewrite length_app, Hlen. simpl. lia.
Qed.

End RolloutProofs.

(** X7.  A rollout of [T] steps into buffers of [T] rows overwrites every
    row: each buffer ends up holding exactly the [T] interactions of this
    cycle, in order, whatever the buffers held before; the loop hands on the
    observation and done flags returned by the last step, and it advances
    [global_step] by [T * num_envs]. *)
Theorem rollout_overwrites_buffers {agent rng env : Type}
    (I : @Rollout.interfaces agent rng env) (num_envs : Z) (ag : agent)
    (T : nat) (s : Rollout.state) :
  length (Rollout.obs (Rollout.buf s)) = T →
  length (Rollout.actions (Rollout.buf s)) = T →
  length (Rollout.logprobs (Rollout.buf s)) = T →
  length (Rollout.rewards (Rollout.buf s)) = T →
  length (Rollout.dones (Rollout.buf s)) = T →
  length (Rollout.values (Rollout.buf s)) = T →
  let s' := Rollout.rollout I num_envs ag T s in
  let r := Rollout.interact I ag T (Rollout.the_rng s) (Rollout.the_env s)
             (Rollout.next_obs s) (Rollout.next_done s) in
  Rollout.buf s'
  = {| Rollout.obs := Rollout.tr_obs <$> r.1;
       Rollout.actions := Rollout.tr_action <$> r.1;
       Rollout.logprobs := Rollout.tr_logprob <$> r.1;
       Rollout.rewards := Rollout.tr_reward <$> r.1;
       Rollout.dones := Rollout.tr_done <$> r.1;
       Rollout.values := Rollout.tr_value <$> r.1 |}
  ∧ (Rollout.the_rng s', Rollout.the_env s', Rollout.next_obs s',
     Rollout.next_done s') = r.2
  ∧ Rollout.global_step s'
    = (Rollout.global_step s + Z.of_nat T * num_envs)%Z.
Proof.
  intros Ho Ha Hl Hr Hd Hv.
  destruct (rollout_prefix I num_envs ag T s)
    as (Hgs & Hfin & Hobs & Hact & Hlog & Hrew & Hdon & Hval & Hlen); [lia..|].
  cbv zeta. split; [|done].
  destruct (Rollout.buf (Rollout.rollout I num_envs ag T s)). simpl in *.
  rewrite Hobs, Hact, Hlog, Hrew, Hdon, Hval.
  rewrite !drop_ge by lia. by rewrite !app_nil_r.
Qed.

Section InteractProofs.
Context {agent rng env : Type}.
Variable I : @Rollout.interfaces agent rng env.
Variable ag : agent.

(** In a run of interactions every step sees the done flags that the step
    before it returned; the first step sees the incoming flags. *)
Lemma interact_chain (n : nat) (g : rng) (e : env) (o : list (list R))
    (d : list R) :
  let r := Rollout.interact I ag n g e o d in
  length r.1 = n
  ∧ r.2.2 = default d (Rollout.tr_done_after <$> last r.1)
  ∧ (∀ tr, r.1 !! 0%nat = Some tr → Rollout.tr_done tr = d)
  ∧ (∀ t tr tr', r.1 !! t = Some tr → r.1 !! S t = Some tr' →
       Rollout.tr_done tr' = Rollout.tr_done_after tr).
Proof.
  cbv zeta. induction n as [|n IH]; simpl.
  - split; [done|]. split; [done|]. split; [done|]. intros t tr tr' Ht. done.
  - destruct (Rollout.interact I ag n g e o d) as [trs [[[g1 e1] o1] d1]].
    simpl in IH. destruct IH as (Hlen & Hfin & Hfirst & Hchain).
    destruct (Rollout.get_action_and_value I ag g1 o1)
      as [g2 [[action logprob] value]].
    destruct (Rollout.env_step I e1 action) as [e2 [[o2 reward] d2]]. simpl.
    split; [rewrite length_app; simpl; lia|].
    split; [by rewrite last_snoc|].
    split.
    + intros tr Htr. destruct trs as [|tr0 trs'].
      * simpl in Htr. injection Htr as <-. simpl. by rewrite Hfin.
      * simpl in Htr. injection Htr as <-. by apply Hfirst.
    + intros t tr tr' Ht Ht'.
      destruct (decide (S t < length trs)%nat) as [Hlt|Hge].
      * rewrite lookup_app_l in Ht by lia. rewrite lookup_app_l in Ht' by lia.
        by eapply Hchain.
      * assert (S t = length trs) as Heq.
        { apply lookup_lt_Some in Ht'. rewrite length_app in Ht'.
          simpl in Ht'. lia. }
        rewrite lookup_app_l in Ht by lia.
        rewrite lookup_app_r in Ht' by lia.
        rewrite Heq, Nat.sub_diag in Ht'. injection Ht' as <-. simpl.
        rewrite Hfin, last_lookup.
        replace (Nat.pred (length trs)) with t by lia. by rewrite Ht.
Qed.

End InteractProofs.

(** X8.  The done buffer is one step behind the rewards: after a rollout of
    [T >= 1] steps, row 0 of [dones] holds the flags that were carried into
    the segment, row t+1 holds the flags that the environment returned for
    the action of step t (whose reward sits in row t of [rewards]), and the
    flags returned for the last action are not in the buffer but in
    [next_done]. *)
Theorem rollout_dones_lag_one_step {agent rng env : Type}
    (I : @Rollout.interfaces agent rng env) (num_envs : Z) (ag : agent)
    (T : nat) (s : Rollout.state) :
  length (Rollout.obs (Rollout.buf s)) = T →
  length (Rollout.actions (Rollout.buf s)) = T →
  length (Rollout.logprobs (Rollout.buf s)) = T →
  length (Rollout.rewards (Rollout.buf s)) = T →
  length (Rollout.dones (Rollout.buf s)) = T →
  length (Rollout.values (Rollout.buf s)) = T →
  (0 < T)%nat →
  let s' := Rollout.rollout I num_envs ag T s in
  let r := Rollout.interact I ag T (Rollout.the_rng s) (Rollout.the_env s)
             (Rollout.next_obs s) (Rollout.next_done s) in
  Rollout.dones (Rollout.buf s') !! 0%nat = Some (Rollout.next_done s)
  ∧ (∀ t tr, r.1 !! t = Some tr →
       Rollout.rewards (Rollout.buf s') !! t = Some (Rollout.tr_reward tr)
       ∧ ((S t < T)%nat →
          Rollout.dones (Rollout.buf s') !! S t
          = Some (Rollout.tr_done_after tr))
       ∧ (S t = T → Rollout.next_done s' = Rollout.tr_done_after tr)).
Proof.
  intros Ho Ha Hl Hr Hd Hv HT.
  destruct (rollout_prefix I num_envs ag T s)
    as (_ & Hfin & _ & _ & _ & Hrew & Hdon & _ & _); [lia..|].
  destruct (interact_chain I ag T (Rollout.the_rng s) (Rollout.the_env s)
              (Rollout.next_obs s) (Rollout.next_done s))
    as (Hlen & Hlast & Hfirst & Hchain).
  cbv zeta in *.
  set (s' := Rollout.rollout I num_envs ag T s) in *.
  set (r := Rollout.interact I ag T (Rollout.the_rng s) (Rollout.the_env s)
              (Rollout.next_obs s) (Rollout.next_done s)) in *.
  rewrite drop_ge, app_nil_r in Hrew by lia.
  rewrite drop_ge, app_nil_r in Hdon by lia.
  rewrite Hrew, Hdon. split.
  - destruct (lookup_lt_is_Some_2 r.1 0%nat) as [tr Htr]; [lia|].
    rewrite list_lookup_fmap, Htr. simpl. f_equal. by apply Hfirst.
  - intros t tr Htr. rewrite !list_lookup_fmap, Htr. simpl.
    split; [done|]. split.
    + intros Hlt. destruct (lookup_lt_is_Some_2 r.1 (S t)) as [tr' Htr']; [lia|].
      rewrite Htr'. simpl. f_equal. by eapply Hchain.
    + intros Heq.
      assert (Hnd : Rollout.next_done s' = r.2.2) by (by rewrite <- Hfin).
      rewrite Hnd, Hlast, last_lookup, Hlen.
      replace (Nat.pred T) with t by lia. by rewrite Htr.
Qed.

(** ** Learning-rate annealing *)

(** X9.  The annealed learning rate is the configured rate at the first
    update; for a positive rate it stays positive and never exceeds the
    configured rate at any update of the run, and it decreases strictly
    from one update to the next: it never reaches zero. *)
Theorem lr_annealing_schedule (learning_rate : R) (num_updates update : Z) :
  0 < learning_rate → (1 ≤ update ≤ num_updates)%Z →
  Anneal.lrnow learning_rate num_updates 1 = learning_rate
  ∧ 0 < Anneal.lrnow learning_rate num_updates update <= learning_rate
  ∧ ((update < num_updates)%Z →
     Anneal.lrnow learning_rate num_updates (update + 1)
     < Anneal.lrnow learning_rate num_updates update).
Proof.
  intros Hlr [Hlo Hhi]. unfold Anneal.lrnow. cbv zeta.
  rewrite !plus_IZR.
  assert (Hx : 1 <= IZR update) by (by apply IZR_le).
  assert (Hxy : IZR update <= IZR num_updates) by (by apply IZR_le).
  set (x := IZR update) in *. set (y := IZR num_updates) in *.
  assert (Hy : 0 < y) by lra.
  assert (Hinv : 0 < / y) by (by apply Rinv_0_lt_compat).
  set (q := learning_rate * / y).
  assert (Hq : 0 < q) by (by apply Rmult_lt_0_compat).
  assert (Hyq : y * q = learning_rate) by (unfold q; field; lra).
  assert (Hnow : ∀ z, (1 - (z - 1) / y) * learning_rate
                      = learning_rate - (z - 1) * q)
    by (intros z; unfold q; field; lra).
  rewrite !Hnow.
  assert (Hxq : (x - 1) * q <= (y - 1) * q)
    by (apply Rmult_le_compat_r; lra).
  assert (Hx0 : 0 <= (x - 1) * q) by (apply Rmult_le_pos; lra).
  split; [lra|]. split; [lra|].
  intros Hlt. replace (x + 1 - 1) with x by lra. lra.
Qed.

(** ** Update cycles: completion, failures and the timestep budget *)

Section MoreCycleProofs.
Context {rng agent env : Type}.
Variable C : @Optimizer.collaborators rng agent env.
Variable a : Config.args.

(** The epoch loop leaves the environment side of the state alone. *)
Lemma epochs_keep_env n b s s' :
  Optimizer.epochs C a n b s = Ok s' →
  Optimizer.st_env s' = Optimizer.st_env s.
Proof.
  revert s. induction n as [|n IH]; intros s; simpl; [by intros [= <-]|].
  destruct (Optimizer.epoch C a b s) as [[fl s1]|e] eqn:Hep; simpl; [|done].
  assert (Henv : Optimizer.st_env s1 = Optimizer.st_env s).
  { revert Hep. unfold Optimizer.epoch.
    destruct (Optimizer.shuffle C _ _) as [g inds]. simpl.
    destruct (Schedule.minibatches _ _ _) as [mbs|e]; simpl; [|done].
    destruct (Optimizer.run_minibatches C b _ _ mbs) as [ag st].
    destruct (Config.target_kl (Config.opts a)) as [tkl|]; simpl.
    - destruct st as [d|]; simpl; [|done].
      destruct (Rgt_dec _ _); by intros [= _ <-].
    - by intros [= _ <-]. }
  destruct fl.
  - intros Hn. rewrite (IH _ Hn). done.
  - by intros [= <-].
Qed.

Lemma update_cycle_env s s' :
  Optimizer.update_cycle C a s = Ok s' →
  Optimizer.st_env s'
  = (Optimizer.rollout C (Optimizer.st_agent s) (Optimizer.st_env s)).1.
Proof.
  unfold Optimizer.update_cycle.
  destruct (Optimizer.rollout C _ _) as [e g]. simpl.
  destruct (Optimizer.epochs C a _ _ _) as [s1|err] eqn:Hep; simpl; [|done].
  destruct (Optimizer.emit_metrics _) as [m|err]; simpl; [|done].
  intros [= <-]. simpl. by rewrite (epochs_keep_env _ _ _ _ Hep).
Qed.

(** With at least one minibatch in a pass, the pass binds the
    diagnostics. *)
Lemma run_minibatches_binds b ag st mbs :
  mbs ≠ [] → is_Some (Optimizer.run_minibatches C b ag st mbs).2.
Proof.
  intros Hne.
  destruct (Optimizer.run_minibatches C b ag st mbs) as [ag' [d|]] eqn:Hrun;
    [by eexists|].
  pose proof (run_minibatches_stats C b ag st mbs) as H. rewrite Hrun in H.
  by destruct (H eq_refl).
Qed.

Lemma minibatches_nonempty (inds : list nat) :
  (0 < Config.minibatch_size a)%Z → (0 < Config.batch_size a)%Z →
  ∃ mbs, Schedule.minibatches inds (Z.to_nat (Config.batch_size a))
           (Config.minibatch_size a) = Ok mbs ∧ mbs ≠ [].
Proof.
  intros Hm Hb. unfold Schedule.minibatches, Schedule.py_range0.
  rewrite decide_False by lia. rewrite decide_False by lia. simpl.
  eexists. split; [done|].
  set (m := Z.to_nat (Config.minibatch_size a)).
  set (B := Z.to_nat (Config.batch_size a)).
  assert (0 < m)%nat by (unfold m; lia). assert (0 < B)%nat by (unfold B; lia).
  assert (0 < (B + m - 1) `div` m)%nat as Hcnt.
  { apply Nat.div_str_pos. lia. }
  destruct ((B + m - 1) `div` m)%nat; [lia|]. done.
Qed.

(** Without a KL threshold and with positive sizes, a pass of the epoch
    loop neither raises nor breaks, and it binds every variable. *)
Lemma epoch_without_kl b s :
  Config.target_kl (Config.opts a) = None →
  (0 < Config.minibatch_size a)%Z → (0 < Config.batch_size a)%Z →
  ∃ s', Optimizer.epoch C a b s = Ok (Optimizer.Continue, s')
    ∧ is_Some (Optimizer.stats (Optimizer.st_vars s'))
    ∧ is_Some (Optimizer.explained_var (Optimizer.st_vars s')).
Proof.
  intros Hkl Hm Hb. unfold Optimizer.epoch.
  destruct (Optimizer.shuffle C _ _) as [g inds]. simpl.
  destruct (minibatches_nonempty inds Hm Hb) as (mbs & -> & Hne). simpl.
  pose proof (run_minibatches_binds b (Optimizer.st_agent s)
                (Optimizer.stats (Optimizer.st_vars s)) mbs Hne) as Hsome.
  destruct (Optimizer.run_minibatches C b _ _ mbs) as [ag st].
  rewrite Hkl. simpl. eexists. split; [done|]. simpl. split; [done|by eexists].
Qed.

Lemma cycle_without_kl s :
  Config.target_kl (Config.opts a) = None →
  (0 < Config.minibatch_size a)%Z → (0 < Config.batch_size a)%Z →
  (0 < Config.update_epochs (Config.opts a))%Z →
  ∃ s' m, Optimizer.update_cycle C a s = Ok s'
    ∧ Optimizer.st_log s' = Optimizer.st_log s ++ [m].
Proof.
  intros Hkl Hm Hb He. unfold Optimizer.update_cycle.
  destruct (Optimizer.rollout C _ _) as [e g].
  destruct (Z.to_nat (Config.update_epochs (Config.opts a))) as [|j] eqn:Hj;
    [lia|].
  simpl.
  destruct (epoch_without_kl (Optimizer.flatten a g)
              (Optimizer.begin_cycle a s e) Hkl Hm Hb)
    as (s1 & Hep1 & Hst & Hev).
  rewrite Hep1. simpl.
  destruct (epochs_never_raise C a j (Optimizer.flatten a g) s1
              ltac:(lia) Hst) as (s2 & Hep & [d Hd]).
  rewrite Hep. simpl.
  destruct (epochs_ok C a _ _ _ _ Hep) as (_ & Hlog & Hev2).
  destruct (Hev2 Hev) as [ev Hev']. unfold Optimizer.emit_metrics.
  rewrite Hd, Hev'. simpl. eexists _, _. split; [done|]. simpl.
  rewrite Hlog.
  destruct (epoch_ok C a _ _ _ _ Hep1) as (_ & Hlog1 & _).
  by rewrite Hlog1.
Qed.

End MoreCycleProofs.

Lemma cycles_without_kl {rng agent env : Type}
    (C : @Optimizer.collaborators rng agent env) (a : Config.args) n s :
  Config.target_kl (Config.opts a) = None →
  (0 < Config.minibatch_size a)%Z → (0 < Config.batch_size a)%Z →
  (0 < Config.update_epochs (Config.opts a))%Z →
  ∃ s', Optimizer.cycles C a n s = Ok s'
    ∧ length (Optimizer.st_log s') = (length (Optimizer.st_log s) + n)%nat.
Proof.
  intros Hkl Hm Hb He. revert s. induction n as [|n IH]; intros s; simpl.
  - eexists. split; [done|lia].
  - destruct (cycle_without_kl C a s Hkl Hm Hb He) as (s1 & m & -> & Hlog).
    simpl. destruct (IH s1) as (s' & -> & Hlen).
    eexists. split; [done|]. rewrite Hlen, Hlog, length_app. simpl. lia.
Qed.

(** X10.  The control flow of the training loop has no failure of its own
    in this configuration: without a target KL, with a positive batch
    size, minibatch size and epoch count, and provided that every call of
    the agent, of the gradient step and of the environment returns (they
    are total functions here; an exception they raise, such as the
    distribution library rejecting NaN parameters, is outside this
    statement), training runs [total_timesteps // batch_size] update
    cycles and emits one record of metrics for each: the range step is
    positive and every name read by the metrics is bound. *)
Theorem train_without_kl_completes {rng agent env : Type}
    (C : @Optimizer.collaborators rng agent env) (a : Config.args)
    (ag : agent) (g : rng) (e : env) :
  Config.target_kl (Config.opts a) = None →
  (0 < Config.minibatch_size a)%Z → (0 < Config.batch_size a)%Z →
  (0 < Config.update_epochs (Config.opts a))%Z →
  ∃ s', Optimizer.train C a ag g e = Ok s'
    ∧ length (Optimizer.st_log s')
      = Z.to_nat (Config.total_timesteps (Config.opts a)
                  `div` Config.batch_size a).
Proof.
  intros Hkl Hm Hb He. unfold Optimizer.train, Config.floordiv.
  rewrite decide_False by lia. simpl.
  destruct (cycles_without_kl C a
              (Z.to_nat (Config.total_timesteps (Config.opts a)
                         `div` Config.batch_size a))
              (Optimizer.initial_state ag g e) Hkl Hm Hb He)
    as (s' & Hs' & Hlen).
  exists s'. split; [done|]. by rewrite Hlen.
Qed.

(** X11.  More minibatches than samples: the floored minibatch size is 0,
    [parse_args] accepts it, and the first pass of the epoch loop raises a
    ValueError from [range] with a zero step. *)
Theorem train_with_too_many_minibatches_raises {rng agent env : Type}
    (C : @Optimizer.collaborators rng agent env) (c : Config.cli)
    (a : Config.args) (ag : agent) (g : rng) (e : env) :
  Config.parse_args c = Ok a →
  (0 < Config.batch_size a < Config.num_minibatches c)%Z →
  (Config.batch_size a ≤ Config.total_timesteps c)%Z →
  (0 < Config.update_epochs c)%Z →
  Config.minibatch_size a = 0%Z
  ∧ Optimizer.train C a ag g e = Raise ValueError.
Proof.
  unfold Config.parse_args, Config.floordiv. intros Hparse Hb Ht He.
  rewrite decide_False in Hparse by lia. simpl in Hparse.
  injection Hparse as <-. simpl in *.
  set (B := (Config.num_envs c * Config.num_steps c)%Z) in *.
  assert (Hms : (B `div` Config.num_minibatches c = 0)%Z)
    by (apply Z.div_small; lia).
  split; [done|].
  unfold Optimizer.train, Config.floordiv. simpl. fold B.
  rewrite decide_False by lia. simpl.
  assert (0 < Config.total_timesteps c `div` B)%Z as Hn
    by (apply Z.div_str_pos; lia).
  destruct (Z.to_nat (Config.total_timesteps c `div` B)) as [|k] eqn:Hk; [lia|].
  simpl. unfold Optimizer.update_cycle. simpl.
  destruct (Optimizer.rollout C ag e) as [e1 seg].
  destruct (Z.to_nat (Config.update_epochs c)) as [|j] eqn:Hj; [lia|].
  simpl. unfold Optimizer.epoch. simpl.
  destruct (Optimizer.shuffle C g _) as [g1 inds]. simpl.
  unfold Schedule.minibatches, Schedule.py_range0. rewrite Hms. done.
Qed.

(** X12.  With no optimisation epoch ([update_epochs <= 0]) no minibatch
    ever runs, so the loss variables are unbound when the first update
    cycle writes its metrics: the run fails with a NameError on
    [v_loss]. *)
Theorem train_without_epochs_raises {rng agent env : Type}
    (C : @Optimizer.collaborators rng agent env) (a : Config.args)
    (ag : agent) (g : rng) (e : env) :
  (Config.update_epochs (Config.opts a) ≤ 0)%Z →
  (0 < Config.batch_size a ≤ Config.total_timesteps (Config.opts a))%Z →
  Optimizer.train C a ag g e = Raise (NameError "v_loss").
Proof.
  intros He Hb. unfold Optimizer.train, Config.floordiv.
  rewrite decide_False by lia. simpl.
  assert (0 < Config.total_timesteps (Config.opts a) `div` Config.batch_size a)%Z
    as Hn by (apply Z.div_str_pos; lia).
  destruct (Z.to_nat _) as [|k] eqn:Hk; [lia|].
  simpl. unfold Optimizer.update_cycle.
  destruct (Optimizer.rollout C _ _) as [e1 seg].
  replace (Z.to_nat (Config.update_epochs (Config.opts a))) with 0%nat by lia.
  done.
Qed.

(** X13.  When a later update cycle leaves the epoch loop in its first
    pass, the cycle completes, but the explained variance it reports is the
    one computed in an earlier cycle: the variable is not assigned on the
    way out. *)
Theorem early_stop_reports_stale_explained_variance {rng agent env : Type}
    (C : @Optimizer.collaborators rng agent env) (a : Config.args)
    (s s1 : Optimizer.state) (ev : option R) :
  Optimizer.explained_var (Optimizer.st_vars s) = Some ev →
  (0 < Config.update_epochs (Config.opts a))%Z →
  Optimizer.epoch C a
    (Optimizer.flatten a
       (Optimizer.rollout C (Optimizer.st_agent s) (Optimizer.st_env s)).2)
    (Optimizer.begin_cycle a s
       (Optimizer.rollout C (Optimizer.st_agent s) (Optimizer.st_env s)).1)
    = Ok (Optimizer.Break, s1) →
  ∃ s' m, Optimizer.update_cycle C a s = Ok s'
    ∧ Optimizer.st_log s' = Optimizer.st_log s ++ [m]
    ∧ Optimizer.m_explained_variance m = ev.
Proof.
  intros Hev He Hbreak. unfold Optimizer.update_cycle.
  destruct (Optimizer.rollout C _ _) as [e1 seg]. simpl in Hbreak.
  destruct (Z.to_nat (Config.update_epochs (Config.opts a))) as [|j] eqn:Hj;
    [lia|].
  simpl. rewrite Hbreak. simpl.
  destruct (epoch_ok C a _ _ _ _ Hbreak)
    as (_ & Hlog & _ & Hev1 & tkl & d & _ & Hd & _).
  unfold Optimizer.emit_metrics. rewrite Hd, Hev1. simpl. rewrite Hev. simpl.
  eexists _, _. split; [done|]. simpl. by rewrite Hlog.
Qed.

Lemma rollout_global_step {agent rng env : Type}
    (I : @Rollout.interfaces agent rng env) (num_envs : Z) (ag : agent)
    (k : nat) (s : Rollout.state) :
  Rollout.global_step (Rollout.rollout I num_envs ag k s)
  = (Rollout.global_step s + Z.of_nat k * num_envs)%Z.
Proof.
  unfold Rollout.rollout. induction k as [|k IH]; [simpl; lia|].
  rewrite seq_S, foldl_app. simpl.
  set (s1 := foldl (Rollout.rollout_step I num_envs ag) s (seq 0 k)) in *.
  unfold Rollout.rollout_step.
  destruct (Rollout.get_action_and_value I ag _ _) as [g2 [[ac lp] v]].
  destruct (Rollout.env_step I _ ac) as [e2 [[o2 rw] d2]]. simpl. lia.
Qed.

Lemma cycles_global_step {agent rng env rng_np : Type}
    (I : @Rollout.interfaces agent rng env) (a : Config.args)
    (shuffle : rng_np → list nat → rng_np * list nat)
    (minibatch_step :
       Optimizer.batch → agent → list nat → agent * Optimizer.mb_stats)
    (n : nat) (s s' : Optimizer.state) :
  Optimizer.cycles (Driver.collaborators_of I a shuffle minibatch_step) a n s
    = Ok s' →
  Rollout.global_step (Optimizer.st_env s')
  = (Rollout.global_step (Optimizer.st_env s)
     + Z.of_nat n * (Z.of_nat (Z.to_nat (Config.num_steps (Config.opts a)))
                     * Config.num_envs (Config.opts a)))%Z.
Proof.
  revert s. induction n as [|n IH]; intros s; simpl.
  - intros [= <-]. lia.
  - destruct (Optimizer.update_cycle _ a s) as [s1|err] eqn:Hc; simpl; [|done].
    intros Hn. rewrite (IH _ Hn).
    rewrite (update_cycle_env _ _ _ _ Hc). simpl.
    unfold Driver.rollout_of. simpl. rewrite rollout_global_step. lia.
Qed.

(** X14.  A training run that completes has taken exactly
    [num_updates * batch_size] environment steps, counted from 0: never
    more than the budget [total_timesteps], and short of it by less than
    one batch. *)
Theorem training_steps_within_budget {agent rng env rng_np : Type}
    (I : @Rollout.interfaces agent rng env) (c : Config.cli) (a : Config.args)
    (shuffle : rng_np → list nat → rng_np * list nat)
    (minibatch_step :
       Optimizer.batch → agent → list nat → agent * Optimizer.mb_stats)
    (ag : agent) (g : rng_np) (e : Rollout.state) (s' : Optimizer.state) :
  Config.parse_args c = Ok a →
  (0 < Config.num_envs c)%Z → (0 < Config.num_steps c)%Z →
  (0 ≤ Config.total_timesteps c)%Z →
  Rollout.global_step e = 0%Z →
  Optimizer.train (Driver.collaborators_of I a shuffle minibatch_step) a ag g e
    = Ok s' →
  let steps := Rollout.global_step (Optimizer.st_env s') in
  steps = ((Config.total_timesteps c `div` Config.batch_size a)
           * Config.batch_size a)%Z
  ∧ (Config.total_timesteps c - Config.batch_size a < steps
     ≤ Config.total_timesteps c)%Z.
Proof.
  unfold Config.parse_args, Config.floordiv. intros Hparse Hne Hns Ht Hg0.
  destruct (decide (Config.num_minibatches c = 0%Z)); [done|].
  simpl in Hparse. injection Hparse as <-. simpl.
  set (B := (Config.num_envs c * Config.num_steps c)%Z).
  assert (HB : (0 < B)%Z) by (unfold B; lia).
  unfold Optimizer.train, Config.floordiv. simpl. fold B.
  rewrite decide_False by lia. simpl. intros Hcycles.
  apply cycles_global_step in Hcycles. simpl in Hcycles.
  rewrite Hcycles, Hg0.
  pose proof (Z.div_pos (Config.total_timesteps c) B Ht HB) as Hn.
  pose proof (Z.div_mod (Config.total_timesteps c) B ltac:(lia)) as Hdm.
  pose proof (Z.mod_pos_bound (Config.total_timesteps c) B HB) as Hmod.
  rewrite !Z2Nat.id by lia. fold B. split; [unfold B; lia|]. unfold B in *. nia.
Qed.

(** ** The minibatch body: diagnostics and policy loss *)

Lemma tsum_nonneg (v : list R) : Forall (λ x, 0 <= x) v → 0 <= tsum v.
Proof.
  unfold tsum. induction 1 as [|x v Hx _ IH]; simpl; lra.
Qed.

Lemma tsum_le (u v : list R) : Forall2 Rle u v → tsum u <= tsum v.
Proof.
  unfold tsum. induction 1 as [|x y u v Hxy _ IH]; simpl; lra.
Qed.

Lemma INR_length_pos {A} (v : list A) : v ≠ [] → 0 < INR (length v).
Proof.
  intros Hne. destruct v as [|x v]; [done|]. apply lt_0_INR. simpl. lia.
Qed.

Lemma mean_nonneg (v : list R) : Forall (λ x, 0 <= x) v → v ≠ [] → 0 <= mean v.
Proof.
  intros Hv Hne. unfold mean.
  apply Rmult_le_pos; [by apply tsum_nonneg|].
  apply Rlt_le, Rinv_0_lt_compat. by apply INR_length_pos.
Qed.

Lemma mean_le (u v : list R) : Forall2 Rle u v → u ≠ [] → mean u <= mean v.
Proof.
  intros Huv Hne. unfold mean. rewrite <- (Forall2_length _ _ _ Huv).
  apply Rmult_le_compat_r; [|by apply tsum_le].
  apply Rlt_le, Rinv_0_lt_compat. by apply INR_length_pos.
Qed.

Lemma mean_replicate (n : nat) (x : R) : n ≠ 0%nat → mean (replicate n x) = x.
Proof.
  intros Hn. unfold mean. rewrite length_replicate.
  assert (Hsum : tsum (replicate n x) = INR n * x).
  { clear Hn. unfold tsum. induction n as [|n IH]; [simpl; lra|].
    rewrite S_INR. simpl. rewrite IH. lra. }
  rewrite Hsum. field. apply not_0_INR. done.
Qed.

(** X16.  Before any gradient step the recomputed log-probabilities are
    the stored ones: then every ratio is 1, both KL estimates are 0, no
    ratio counts as clipped (for a non-negative clip coefficient), and the
    policy loss is minus the mean advantage. *)
Theorem unchanged_policy_diagnostics (clip_coef : R)
    (mb_logprobs mb_advantages : list R) :
  mb_logprobs ≠ [] → length mb_advantages = length mb_logprobs →
  0 <= clip_coef →
  let logratio := Minibatch.logratio mb_logprobs mb_logprobs in
  let ratio := Minibatch.ratio logratio in
  ratio = replicate (length mb_logprobs) 1
  ∧ Minibatch.old_approx_kl logratio = 0
  ∧ Minibatch.approx_kl ratio logratio = 0
  ∧ Minibatch.clipfrac clip_coef ratio = 0
  ∧ Minibatch.pg_loss clip_coef mb_advantages ratio = - mean mb_advantages.
Proof.
  intros Hne Hlen Hc. cbv zeta.
  assert (Hn : length mb_logprobs ≠ 0%nat) by (by destruct mb_logprobs).
  assert (Hlr : Minibatch.logratio mb_logprobs mb_logprobs
                = replicate (length mb_logprobs) 0).
  { unfold Minibatch.logratio, vsub. clear.
    induction mb_logprobs as [|x l IH]; [done|].
    cbn [zip_with length replicate]. rewrite IH. f_equal. lra. }
  rewrite Hlr. unfold Minibatch.ratio. rewrite fmap_replicate, exp_0.
  split; [done|].
  split.
  { unfold Minibatch.old_approx_kl, Minibatch.vneg.
    rewrite fmap_replicate, mean_replicate by done. lra. }
  split.
  { unfold Minibatch.approx_kl, vsub.
    rewrite fmap_replicate, zip_with_replicate, mean_replicate by done. lra. }
  split.
  { unfold Minibatch.clipfrac. rewrite fmap_replicate.
    destruct (Rgt_dec (Rabs (1 - 1)) clip_coef) as [Hgt|_];
      [|by apply mean_replicate].
    replace (1 - 1) with 0 in Hgt by lra. rewrite Rabs_R0 in Hgt. lra. }
  unfold Minibatch.pg_loss, vclamp. rewrite fmap_replicate. cbv zeta.
  assert (Hcl : clamp 1 (1 - clip_coef) (1 + clip_coef) = 1) by case_minmax.
  rewrite Hcl, vmax_diag. unfold Minibatch.vmul, Minibatch.vneg.
  rewrite <- Hlen.
  assert (Hmul : ∀ l : list R,
    zip_with Rmult (Ropp <$> l) (replicate (length l) 1) = Ropp <$> l).
  { induction l as [|x l IH]; [done|].
    cbn [length replicate]. rewrite fmap_cons. cbn [zip_with].
    rewrite IH. f_equal. lra. }
  rewrite Hmul. unfold mean. rewrite length_fmap.
  assert (Hsum : ∀ l : list R, tsum (Ropp <$> l) = - tsum l).
  { unfold tsum. induction l as [|x l IH]; [simpl; lra|].
    rewrite fmap_cons. cbn [foldr]. rewrite IH. lra. }
  rewrite Hsum. field. apply not_0_INR. lia.
Qed.

(** X17.  The clipped surrogate loss is pessimistic: it is never below the
    unclipped loss, minus the mean of advantage times ratio, and it equals
    that loss when every ratio lies within [1 - clip_coef, 1 + clip_coef]. *)
Theorem pg_loss_is_pessimistic (clip_coef : R) (mb_advantages ratio : list R) :
  mb_advantages ≠ [] → length ratio = length mb_advantages →
  mean (Minibatch.vmul (Minibatch.vneg mb_advantages) ratio)
    <= Minibatch.pg_loss clip_coef mb_advantages ratio
  ∧ (Forall (λ r, 1 - clip_coef <= r <= 1 + clip_coef) ratio →
     Minibatch.pg_loss clip_coef mb_advantages ratio
     = mean (Minibatch.vmul (Minibatch.vneg mb_advantages) ratio)).
Proof.
  intros Hne Hlen. unfold Minibatch.pg_loss. cbv zeta. split.
  - apply mean_le.
    + unfold vmax.
      set (u := Minibatch.vmul (Minibatch.vneg mb_advantages) ratio).
      set (v := Minibatch.vmul (Minibatch.vneg mb_advantages)
                  (vclamp ratio (1 - clip_coef) (1 + clip_coef))).
      assert (Hlen' : length u = length v).
      { unfold u, v, Minibatch.vmul, vclamp.
        rewrite !length_zip_with, !length_fmap. done. }
      clearbody u v. revert v Hlen'.
      induction u as [|x u IH]; intros [|y v] Hl; simpl in *; try done;
        first [by constructor | constructor; [apply Rmax_l|apply IH; lia]].
    + unfold Minibatch.vmul, Minibatch.vneg.
      destruct mb_advantages, ratio; simpl in *; done.
  - intros Hin.
    assert (Hcl : vclamp ratio (1 - clip_coef) (1 + clip_coef) = ratio).
    { unfold vclamp. clear Hlen. induction Hin as [|r l Hr _ IH]; [done|].
      rewrite fmap_cons, IH. f_equal. destruct Hr. case_minmax. }
    by rewrite Hcl, vmax_diag.
Qed.

Lemma gather_is_Some (b : list R) (inds : list nat) :
  is_Some (gather b inds) ↔ Forall (λ i, (i < length b)%nat) inds.
Proof.
  unfold gather. rewrite mapM_is_Some. apply Forall_iff. intros i. simpl.
  apply lookup_lt_is_Some.
Qed.

(** X19.  In the Gaussian script the value loss does not depend on
    [clip_vloss] nor on [clip_coef]: for flattened buffers of one length,
    the loss with clipping enabled is the loss with clipping disabled. *)
Theorem gaussian_value_loss_ignores_clipping (clip_coef clip_coef' : R)
    (newvalue b_returns b_values : list R) (mb_inds : list nat) :
  length b_values = length b_returns →
  Gaussian.value_loss true clip_coef newvalue b_returns b_values mb_inds
  = Gaussian.value_loss false clip_coef' newvalue b_returns b_values mb_inds.
Proof.
  intros Hlen. unfold Gaussian.value_loss.
  destruct (gather b_returns mb_inds) as [mb_returns|] eqn:Hr; simpl; [|done].
  assert (is_Some (gather b_values mb_inds)) as [mb_values Hv].
  { apply gather_is_Some. rewrite Hlen. apply gather_is_Some. by eexists. }
  rewrite Hv. simpl. by rewrite vmax_diag.
Qed.

(** X20.  No minibatch indexes out of range: every slice that the schedule
    cuts from a permutation of 0..B-1 gathers successfully from flattened
    buffers of length B, so the value loss of either script is defined on
    it. *)
Theorem minibatch_indices_in_range (inds : list nat) (B : nat) (ms : Z)
    (mbs : list (list nat)) (mb_inds : list nat) (clip_vloss : bool)
    (clip_coef : R) (newvalue b_returns b_values : list R) :
  inds ≡ₚ Schedule.arange B →
  Schedule.minibatches inds B ms = Ok mbs → mb_inds ∈ mbs →
  length b_returns = B → length b_values = B →
  Forall (λ i, (i < B)%nat) mb_inds
  ∧ is_Some (Gaussian.value_loss clip_vloss clip_coef newvalue b_returns
               b_values mb_inds)
  ∧ is_Some (Beta.value_loss clip_vloss clip_coef newvalue b_returns
               b_values mb_inds).
Proof.
  intros Hperm Hmbs Hin Hr Hv.
  assert (Hrange : Forall (λ i, (i < B)%nat) mb_inds).
  { revert Hmbs. unfold Schedule.minibatches.
    destruct (Schedule.py_range0 B ms) as [starts|e]; simpl; [|done].
    intros [= <-]. apply list_elem_of_fmap in Hin as (start & -> & _).
    apply Forall_forall. intros i Hi. unfold Schedule.slice in Hi.
    apply subseteq_take, subseteq_drop in Hi. rewrite Hperm in Hi.
    unfold Schedule.arange in Hi. apply elem_of_seq in Hi. lia. }
  split; [done|].
  assert (is_Some (gather b_returns mb_inds)) as [mr Hmr]
    by (apply gather_is_Some; by rewrite Hr).
  assert (is_Some (gather b_values mb_inds)) as [mv Hmv]
    by (apply gather_is_Some; by rewrite Hv).
  unfold Gaussian.value_loss, Beta.value_loss. rewrite Hmr, Hmv.
  destruct clip_vloss; simpl; split; by eexists.
Qed.

(** ** Explained variance *)

Lemma var_nonneg (y : list R) : y ≠ [] → 0 <= Optimizer.var y.
Proof.
  intros Hne. unfold Optimizer.var. apply mean_nonneg.
  - apply Forall_fmap, Forall_forall. intros x _. cbv beta.
    unfold compose. apply pow2_ge_0.
  - by destruct y.
Qed.

Lemma vsub_diag (y : list R) : vsub y y = replicate (length y) 0.
Proof.
  unfold vsub. induction y as [|x y IH]; [done|].
  cbn [zip_with length replicate]. rewrite IH. f_equal. lra.
Qed.

(** X21.  Whenever the explained variance reported with the metrics is
    defined (the return targets do not have zero variance), it is at
    most 1, and it is 1 when the value estimates equal the targets. *)
Theorem explained_variance_at_most_one (y_pred y_true : list R) :
  y_true ≠ [] → length y_pred = length y_true →
  (∀ v, Optimizer.explained_variance y_pred y_true = Some v → v <= 1)
  ∧ (Optimizer.var y_true ≠ 0 →
     Optimizer.explained_variance y_true y_true = Some 1).
Proof.
  intros Hne Hlen. unfold Optimizer.explained_variance. cbv zeta.
  pose proof (var_nonneg y_true Hne) as Hvar.
  split.
  - intros v. destruct (Req_dec_T (Optimizer.var y_true) 0); [done|].
    intros [= <-].
    assert (0 <= Optimizer.var (vsub y_true y_pred)) as Hd.
    { apply var_nonneg. unfold vsub.
      destruct y_true, y_pred; simpl in *; done. }
    assert (0 <= Optimizer.var (vsub y_true y_pred) / Optimizer.var y_true).
    { apply Rmult_le_pos; [done|]. apply Rlt_le, Rinv_0_lt_compat. lra. }
    lra.
  - intros Hnz. destruct (Req_dec_T (Optimizer.var y_true) 0); [done|].
    f_equal. rewrite vsub_diag.
    assert (Hz : Optimizer.var (replicate (length y_true) 0) = 0).
    { assert (Hn : length y_true ≠ 0%nat) by (by destruct y_true).
      unfold Optimizer.var. rewrite mean_replicate by done.
      rewrite fmap_replicate, mean_replicate by done. lra. }
    rewrite Hz. unfold Rdiv. lra.
Qed.

(** ** The Beta agent: the finiteness guard and evaluation *)

Lemma shape_entry_non_finite (x : XFloat.xfloat) :
  XFloat.isnan (XFloat.xadd (XFloat.softplus x) (XFloat.Fin 1))
  || XFloat.isinf (XFloat.xadd (XFloat.softplus x) (XFloat.Fin 1))
  = BetaOverflow.overflowing x.
Proof. by destruct x. Qed.

Lemma any_orb (p q : XFloat.xfloat → bool) (t : list (list XFloat.xfloat)) :
  BetaAgent.any p t || BetaAgent.any q t
  = BetaAgent.any (λ x, p x || q x) t.
Proof.
  unfold BetaAgent.any. induction t as [|r t IH]; [done|]. simpl.
  rewrite <- IH.
  assert (Hrow : existsb p r || existsb q r = existsb (λ x, p x || q x) r).
  { clear. induction r as [|x r IHr]; [done|]. simpl. rewrite <- IHr.
    destruct (p x), (q x), (existsb p r), (existsb q r); done. }
  rewrite <- Hrow.
  destruct (existsb p r), (existsb q r), (existsb (existsb p) t),
    (existsb (existsb q) t); done.
Qed.

Lemma any_shape_parameter (p : XFloat.xfloat → bool)
    (pre : list (list XFloat.xfloat)) :
  BetaAgent.any p (BetaAgent.shape_parameter pre)
  = BetaAgent.any
      (λ x, p (XFloat.xadd (XFloat.softplus x) (XFloat.Fin 1))) pre.
Proof.
  unfold BetaAgent.any, BetaAgent.shape_parameter, BetaAgent.map2d.
  induction pre as [|r pre IH]; [done|]. rewrite fmap_cons. simpl.
  rewrite IH. f_equal. clear. induction r as [|x r IHr]; [done|].
  rewrite fmap_cons. simpl. by rewrite IHr.
Qed.

(** X23.  The finiteness guard of [get_action_and_value] fires exactly
    when some output of the alpha or of the beta network is +infinity or
    NaN: finite outputs and -infinity (which gives the shape parameter 1)
    never trigger it. *)
Theorem non_finite_iff_network_overflow (pre_alpha pre_beta : list (list XFloat.xfloat)) :
  BetaAgent.non_finite (BetaAgent.shape_parameter pre_alpha)
    (BetaAgent.shape_parameter pre_beta)
  = BetaAgent.any BetaOverflow.overflowing pre_alpha
    || BetaAgent.any BetaOverflow.overflowing pre_beta.
Proof.
  unfold BetaAgent.non_finite.
  rewrite !any_shape_parameter.
  assert (Ha : ∀ t, BetaAgent.any BetaOverflow.overflowing t
    = BetaAgent.any
        (λ x, XFloat.isnan (XFloat.xadd (XFloat.softplus x) (XFloat.Fin 1))) t
      || BetaAgent.any
        (λ x, XFloat.isinf (XFloat.xadd (XFloat.softplus x) (XFloat.Fin 1))) t).
  { intros t. rewrite any_orb. unfold BetaAgent.any.
    induction t as [|r t IH]; [done|]. simpl. rewrite IH. f_equal.
    clear. induction r as [|x r IHr]; [done|]. simpl.
    by rewrite IHr, <- shape_entry_non_finite. }
  rewrite !Ha.
  repeat match goal with
  | |- context [BetaAgent.any ?p ?t] =>
      let b := fresh "b" in
      generalize (BetaAgent.any p t); intros b
  end.
  repeat match goal with b : bool |- _ => destruct b end; done.
Qed.

(** X24.  Evaluating an action that [get_action_and_value] returned from
    sampling, with the same agent and observation, draws no new sample and
    returns that action with the same log-probability, entropy and value:
    both calls evaluate the log-density at the inverse rescaling of the
    returned action. *)
Theorem evaluation_reproduces_sampled_logprob (T : BetaAgent.torch)
    (self : BetaAgent.Agent) (x : list (list XFloat.xfloat))
    tr action logprob entropy value :
  BetaAgent.get_action_and_value T self x None
    = (tr, Ok (action, logprob, entropy, value)) →
  ∃ tr',
    BetaAgent.get_action_and_value T self x (Some action)
      = (tr', Ok (action, logprob, entropy, value))
    ∧ (BetaAgent.BetaSample ∉ tr')
    ∧ BetaAgent.BetaLogProb
        (BetaAgent.inv_scale_by_action_bounds self action) ∈ tr'.
Proof.
  unfold BetaAgent.get_action_and_value.
  destruct (BetaAgent.beta_init T _ _) as [[]|e0]; [|by intros [= _ ?]].
  set (alpha := BetaAgent.shape_parameter _).
  set (beta := BetaAgent.shape_parameter _).
  set (sampled := BetaAgent.scale_by_action_bounds self
                    (BetaAgent.beta_sample T alpha beta)).
  simpl.
  destruct (BetaAgent.beta_log_prob T alpha beta
              (BetaAgent.inv_scale_by_action_bounds self sampled))
    as [lp|e0] eqn:Hlp; intros [= _ <- <- <- <-].
  rewrite Hlp. eexists. split; [done|]. split.
  - intros Hin. apply elem_of_app in Hin as [Hin|Hin].
    + destruct (BetaAgent.non_finite alpha beta);
        [|by apply not_elem_of_nil in Hin].
      unfold BetaAgent.diagnostics, BetaAgent.log_parameters in Hin.
      repeat match type of Hin with
      | _ ∈ _ ++ _ => apply elem_of_app in Hin as [Hin|Hin]
      | _ ∈ _ :: _ => apply elem_of_cons in Hin as [Hin|Hin]; [done|]
      | _ ∈ [] => by apply not_elem_of_nil in Hin
      | _ ∈ imap _ _ =>
          apply elem_of_lookup_imap in Hin as (? & ? & ? & _); done
      end.
    + repeat match type of Hin with
      | _ ∈ _ :: _ => apply elem_of_cons in Hin as [Hin|Hin]; [done|]
      | _ ∈ [] => by apply not_elem_of_nil in Hin
      end.
  - rewrite !elem_of_app, !elem_of_cons. eauto 10.
Qed.

(** ** Environment seeds *)

(** X25.  With a positive [num_seeds] the Gaussian script gives every
    environment a seed in [seed, seed + num_seeds), and two environments
    get the same seed exactly when their indices agree modulo [num_seeds]:
    with more environments than seeds, seeds are shared. *)
Theorem seed_arr_cycles (seed num_seeds : Z) (num_envs : nat) :
  (0 < num_seeds)%Z →
  ∃ seeds,
    Envs.seed_arr seed num_seeds num_envs = Ok seeds
    ∧ length seeds = num_envs
    ∧ ∀ i j si sj, seeds !! i = Some si → seeds !! j = Some sj →
        (seed <= si < seed + num_seeds)%Z
        ∧ (si = sj ↔
           (Z.of_nat i `mod` num_seeds = Z.of_nat j `mod` num_seeds)%Z).
Proof.
  intros Hpos. unfold Envs.seed_arr.
  destruct (decide (num_seeds = 0%Z ∧ num_envs ≠ 0%nat)) as [[? _]|_]; [lia|].
  eexists. split; [done|]. split.
  - by rewrite length_fmap, length_seq.
  - intros i j si sj Hi Hj.
    apply list_lookup_fmap_Some in Hi as (i' & -> & Hi').
    apply list_lookup_fmap_Some in Hj as (j' & -> & Hj').
    apply lookup_seq in Hi' as [-> _]. apply lookup_seq in Hj' as [-> _].
    simpl.
    pose proof (Z.mod_pos_bound (Z.of_nat i) num_seeds Hpos).
    split; lia.
Qed.

(** ** The further properties at concrete inputs *)

(** X1 on the four-step segment, at its last step. *)
Lemma plain_return_recursion_witness :
  let seg := Fixture.segment4 in
  let result :=
    Advantage.compute_returns 0.99 4 1 (Optimizer.rewards seg)
      (Optimizer.dones seg) (Optimizer.values seg)
      (Optimizer.next_value seg) (Optimizer.next_done seg) in
  at2 result.2 3 0 =
    at2 (Optimizer.rewards seg) 3 0
    + 0.99 * GaeSpec.nextnonterminal 4 (Optimizer.dones seg)
               (Optimizer.next_done seg) 3 0
      * ReturnSpec.next_return 4 (Optimizer.next_value seg) result.2 3 0
  ∧ at2 result.1 3 0 = at2 result.2 3 0 - at2 (Optimizer.values seg) 3 0.
Proof.
  apply (plain_return_recursion 0.99 4 1
           (Optimizer.rewards Fixture.segment4)
           (Optimizer.dones Fixture.segment4)
           (Optimizer.values Fixture.segment4)
           (Optimizer.next_value Fixture.segment4)
           (Optimizer.next_done Fixture.segment4));
    first [shape2_concrete | reflexivity | lia].
Defined.

(** X2 on the four-step segment, with GAE. *)
Lemma estimate_keeps_shape_witness :
  let seg := Fixture.segment4 in
  let result :=
    Advantage.estimate 0.99 0.95 4 1 (Optimizer.rewards seg)
      (Optimizer.dones seg) (Optimizer.values seg)
      (Optimizer.next_value seg) (Optimizer.next_done seg) true in
  shape2 4 1 result.1 ∧ shape2 4 1 result.2.
Proof.
  apply (estimate_keeps_shape 0.99 0.95 4 1
           (Optimizer.rewards Fixture.segment4)
           (Optimizer.dones Fixture.segment4)
           (Optimizer.values Fixture.segment4)
           (Optimizer.next_value Fixture.segment4)
           (Optimizer.next_done Fixture.segment4) true);
    first [shape2_concrete | reflexivity].
Defined.

(** X4 for an episode end stored in row 2: the recursion is cut at
    step 1. *)
Lemma episode_end_cuts_recursion_witness :
  let seg := Fixture.segment4 in
  let result :=
    Advantage.estimate 0.99 0.95 4 1 (Optimizer.rewards seg)
      RunFixture.dones_mid (Optimizer.values seg)
      (Optimizer.next_value seg) (Optimizer.next_done seg) true in
  at2 result.1 1 0
    = at2 (Optimizer.rewards seg) 1 0 - at2 (Optimizer.values seg) 1 0
  ∧ at2 result.2 1 0
    = (at2 (Optimizer.rewards seg) 1 0 - at2 (Optimizer.values seg) 1 0)
      + at2 (Optimizer.values seg) 1 0.
Proof.
  apply (episode_end_cuts_recursion 0.99 0.95 4 1
           (Optimizer.rewards Fixture.segment4) RunFixture.dones_mid
           (Optimizer.values Fixture.segment4)
           (Optimizer.next_value Fixture.segment4)
           (Optimizer.next_done Fixture.segment4) true);
    first [shape2_concrete | reflexivity | lia].
Defined.

(** X5 on the four-step segment, in plain-return mode. *)
Lemma estimate_at_gamma_zero_witness :
  let seg := Fixture.segment4 in
  Advantage.estimate 0 0.95 4 1 (Optimizer.rewards seg) (Optimizer.dones seg)
    (Optimizer.values seg) (Optimizer.next_value seg)
    (Optimizer.next_done seg) false
  = (zip_with vsub (Optimizer.rewards seg) (Optimizer.values seg),
     Optimizer.rewards seg).
Proof.
  apply (estimate_at_gamma_zero 0.95 4 1
           (Optimizer.rewards Fixture.segment4)
           (Optimizer.dones Fixture.segment4)
           (Optimizer.values Fixture.segment4)
           (Optimizer.next_value Fixture.segment4)
           (Optimizer.next_done Fixture.segment4) false);
    first [shape2_concrete | reflexivity].
Defined.

(** X6 on the four-step segment: setting the first done flag changes
    nothing. *)
Lemma estimate_ignores_first_done_row_witness :
  let seg := Fixture.segment4 in
  Advantage.estimate 0.99 0.95 4 1 (Optimizer.rewards seg)
    (<[0%nat:=[1]]> (Optimizer.dones seg)) (Optimizer.values seg)
    (Optimizer.next_value seg) (Optimizer.next_done seg) true
  = Advantage.estimate 0.99 0.95 4 1 (Optimizer.rewards seg)
      (Optimizer.dones seg) (Optimizer.values seg)
      (Optimizer.next_value seg) (Optimizer.next_done seg) true.
Proof.
  apply (estimate_ignores_first_done_row 0.99 0.95 4 1
           (Optimizer.rewards Fixture.segment4)
           (Optimizer.dones Fixture.segment4)
           (Optimizer.values Fixture.segment4)
           (Optimizer.next_value Fixture.segment4)
           (Optimizer.next_done Fixture.segment4) true [1]);
    first [shape2_concrete | reflexivity].
Defined.

(** X7 for a rollout of two steps of the counting environment. *)
Lemma rollout_overwrites_buffers_witness :
  let s := RunFixture.state_zero 2 in
  let s' := Rollout.rollout RunFixture.interfaces_count 1 () 2 s in
  let r := Rollout.interact RunFixture.interfaces_count () 2
             (Rollout.the_rng s) (Rollout.the_env s) (Rollout.next_obs s)
             (Rollout.next_done s) in
  Rollout.buf s'
  = {| Rollout.obs := Rollout.tr_obs <$> r.1;
       Rollout.actions := Rollout.tr_action <$> r.1;
       Rollout.logprobs := Rollout.tr_logprob <$> r.1;
       Rollout.rewards := Rollout.tr_reward <$> r.1;
       Rollout.dones := Rollout.tr_done <$> r.1;
       Rollout.values := Rollout.tr_value <$> r.1 |}
  ∧ (Rollout.the_rng s', Rollout.the_env s', Rollout.next_obs s',
     Rollout.next_done s') = r.2
  ∧ Rollout.global_step s'
    = (Rollout.global_step s + Z.of_nat 2 * 1)%Z.
Proof.
  apply (rollout_overwrites_buffers RunFixture.interfaces_count 1 () 2
           (RunFixture.state_zero 2)); reflexivity.
Defined.

(** X8 for the same rollout. *)
Lemma rollout_dones_lag_one_step_witness :
  let s := RunFixture.state_zero 2 in
  let s' := Rollout.rollout RunFixture.interfaces_count 1 () 2 s in
  let r := Rollout.interact RunFixture.interfaces_count () 2
             (Rollout.the_rng s) (Rollout.the_env s) (Rollout.next_obs s)
             (Rollout.next_done s) in
  Rollout.dones (Rollout.buf s') !! 0%nat = Some (Rollout.next_done s)
  ∧ (∀ t tr, r.1 !! t = Some tr →
       Rollout.rewards (Rollout.buf s') !! t = Some (Rollout.tr_reward tr)
       ∧ ((S t < 2)%nat →
          Rollout.dones (Rollout.buf s') !! S t
          = Some (Rollout.tr_done_after tr))
       ∧ (S t = 2%nat → Rollout.next_done s' = Rollout.tr_done_after tr)).
Proof.
  apply (rollout_dones_lag_one_step RunFixture.interfaces_count 1 () 2
           (RunFixture.state_zero 2)); first [reflexivity | lia].
Defined.

(** X9 for a rate of 0.5 at the second of four updates. *)
Lemma lr_annealing_schedule_witness :
  Anneal.lrnow 0.5 4 1 = 0.5
  ∧ 0 < Anneal.lrnow 0.5 4 2 <= 0.5
  ∧ ((2 < 4)%Z → Anneal.lrnow 0.5 4 (2 + 1) < Anneal.lrnow 0.5 4 2).
Proof.
  apply (lr_annealing_schedule 0.5 4 2); [lra|lia].
Defined.

(** X10 for two update cycles of four samples. *)
Lemma train_without_kl_completes_witness :
  ∃ s', Optimizer.train (Fixture.collaborators_with 1) RunFixture.args_no_kl
          () () () = Ok s'
    ∧ length (Optimizer.st_log s') = Z.to_nat (8 `div` 4).
Proof.
  apply (train_without_kl_completes (Fixture.collaborators_with 1)
           RunFixture.args_no_kl () () ());
    first [reflexivity | simpl; lia].
Defined.

(** X11 for four samples in five minibatches. *)
Lemma train_with_too_many_minibatches_raises_witness :
  Config.minibatch_size RunFixture.args_crowded = 0%Z
  ∧ Optimizer.train (Fixture.collaborators_with 1) RunFixture.args_crowded
      () () () = Raise ValueError.
Proof.
  apply (train_with_too_many_minibatches_raises (Fixture.collaborators_with 1)
           RunFixture.cli_crowded RunFixture.args_crowded () () ());
    first [reflexivity | simpl; lia].
Defined.

(** X12 for a configuration with zero epochs. *)
Lemma train_without_epochs_raises_witness :
  Optimizer.train (Fixture.collaborators_with 1) RunFixture.args_no_epochs
    () () () = Raise (NameError "v_loss").
Proof.
  apply (train_without_epochs_raises (Fixture.collaborators_with 1)
           RunFixture.args_no_epochs () () ()); simpl; lia.
Defined.

(** X13 for a cycle that starts with an explained variance of 0.5 and
    meets an approximate KL of 1 against a threshold of 0.5. *)
Lemma early_stop_reports_stale_explained_variance_witness :
  ∃ s' m,
    Optimizer.update_cycle (Fixture.collaborators_with 1) Fixture.args_even
      RunFixture.state_after_cycle = Ok s'
    ∧ Optimizer.st_log s'
      = Optimizer.st_log RunFixture.state_after_cycle ++ [m]
    ∧ Optimizer.m_explained_variance m = Some 0.5.
Proof.
  eapply (early_stop_reports_stale_explained_variance
            (Fixture.collaborators_with 1) Fixture.args_even
            RunFixture.state_after_cycle).
  - reflexivity.
  - simpl. lia.
  - unfold Optimizer.epoch. simpl.
    destruct (Rgt_dec 1 0.5) as [_|Hle]; [reflexivity|exfalso; lra].
Defined.

Lemma train_without_kl_ok {rng agent env : Type}
    (C : @Optimizer.collaborators rng agent env) (a : Config.args)
    (ag : agent) (g : rng) (e : env) :
  Config.target_kl (Config.opts a) = None →
  (0 < Config.minibatch_size a)%Z → (0 < Config.batch_size a)%Z →
  (0 < Config.update_epochs (Config.opts a))%Z →
  ∃ s', Optimizer.train C a ag g e = Ok s'.
Proof.
  intros Hkl Hm Hb He. unfold Optimizer.train, Config.floordiv.
  destruct (decide (Config.batch_size a = 0%Z)) as [?|_]; [lia|]. simpl.
  destruct (cycles_without_kl C a
              (Z.to_nat (Config.total_timesteps (Config.opts a)
                         `div` Config.batch_size a))
              (Optimizer.initial_state ag g e) Hkl Hm Hb He)
    as (s' & Hs' & _).
  by exists s'.
Qed.

(** X14 for two update cycles of four steps of the counting environment:
    eight steps for a budget of eight. *)
Lemma training_steps_within_budget_witness :
  ∃ s',
    Optimizer.train
      (Driver.collaborators_of RunFixture.interfaces_count
         RunFixture.args_no_kl (λ (g : unit) l, (g, reverse l))
         RunFixture.minibatch_step_idle)
      RunFixture.args_no_kl () () (RunFixture.state_zero 4) = Ok s'
    ∧ Rollout.global_step (Optimizer.st_env s') = ((8 `div` 4) * 4)%Z
    ∧ (8 - 4 < Rollout.global_step (Optimizer.st_env s') ≤ 8)%Z.
Proof.
  destruct (train_without_kl_ok
              (Driver.collaborators_of RunFixture.interfaces_count
                 RunFixture.args_no_kl (λ (g : unit) l, (g, reverse l))
                 RunFixture.minibatch_step_idle)
              RunFixture.args_no_kl () () (RunFixture.state_zero 4))
    as [s' Hs']; [reflexivity | simpl; lia | simpl; lia | simpl; lia |].
  exists s'. split; [exact Hs'|].
  apply (training_steps_within_budget RunFixture.interfaces_count
           RunFixture.cli_no_kl RunFixture.args_no_kl
           (λ (g : unit) l, (g, reverse l)) RunFixture.minibatch_step_idle
           () () (RunFixture.state_zero 4) s');
    first [reflexivity | exact Hs' | simpl; lia].
Defined.

(** X16 for two samples. *)
Lemma unchanged_policy_diagnostics_witness :
  let logratio := Minibatch.logratio [0.1; 0.2] [0.1; 0.2] in
  let ratio := Minibatch.ratio logratio in
  ratio = replicate (length [0.1; 0.2]) 1
  ∧ Minibatch.old_approx_kl logratio = 0
  ∧ Minibatch.approx_kl ratio logratio = 0
  ∧ Minibatch.clipfrac 0.2 ratio = 0
  ∧ Minibatch.pg_loss 0.2 [1; 2] ratio = - mean [1; 2].
Proof.
  apply (unchanged_policy_diagnostics 0.2 [0.1; 0.2] [1; 2]);
    first [discriminate | reflexivity | lra].
Defined.

(** X17 for one sample with advantage 1 and ratio 1.5. *)
Lemma pg_loss_is_pessimistic_witness :
  mean (Minibatch.vmul (Minibatch.vneg [1]) [1.5])
    <= Minibatch.pg_loss 0.2 [1] [1.5]
  ∧ (Forall (λ r, 1 - 0.2 <= r <= 1 + 0.2) [1.5] →
     Minibatch.pg_loss 0.2 [1] [1.5]
     = mean (Minibatch.vmul (Minibatch.vneg [1]) [1.5])).
Proof.
  apply (pg_loss_is_pessimistic 0.2 [1] [1.5]);
    first [discriminate | reflexivity].
Defined.

(** X19 on the one-sample minibatch of C1. *)
Lemma gaussian_value_loss_ignores_clipping_witness :
  Gaussian.value_loss true 0.2 [1] [1] [0] [0%nat]
  = Gaussian.value_loss false 0.5 [1] [1] [0] [0%nat].
Proof.
  apply (gaussian_value_loss_ignores_clipping 0.2 0.5 [1] [1] [0] [0%nat]).
  reflexivity.
Defined.

(** X20 for the reversed index array of four samples, cut in two. *)
Lemma minibatch_indices_in_range_witness :
  Forall (λ i, (i < 4)%nat) [3; 2]%nat
  ∧ is_Some (Gaussian.value_loss true 0.2 [1; 1] [1; 1; 1; 1] [0; 0; 0; 0]
               [3; 2]%nat)
  ∧ is_Some (Beta.value_loss true 0.2 [1; 1] [1; 1; 1; 1] [0; 0; 0; 0]
               [3; 2]%nat).
Proof.
  apply (minibatch_indices_in_range (reverse (Schedule.arange 4)) 4 2
           [[3; 2]; [1; 0]]%nat [3; 2]%nat true 0.2 [1; 1] [1; 1; 1; 1]
           [0; 0; 0; 0]).
  - apply reverse_Permutation.
  - reflexivity.
  - constructor.
  - reflexivity.
  - reflexivity.
Defined.

(** X21 for the targets 1 and 2 and the estimates 0 and 1. *)
Lemma explained_variance_at_most_one_witness :
  (∀ v, Optimizer.explained_variance [0; 1] [1; 2] = Some v → v <= 1)
  ∧ (Optimizer.var [1; 2] ≠ 0 →
     Optimizer.explained_variance [1; 2] [1; 2] = Some 1).
Proof.
  apply (explained_variance_at_most_one [0; 1] [1; 2]);
    first [discriminate | reflexivity].
Defined.

(** X24 for the midpoint sampler between the bounds -0.4 and 0.4. *)
Lemma evaluation_reproduces_sampled_logprob_witness :
  let self :=
    AgentFixture.agent_with (XFloat.Fin (-0.4)) (XFloat.Fin 0.4) (XFloat.Fin 0) in
  ∃ tr action logprob entropy value,
    BetaAgent.get_action_and_value AgentFixture.torch_midpoint self
      [[XFloat.Fin 0]] None = (tr, Ok (action, logprob, entropy, value))
    ∧ ∃ tr',
        BetaAgent.get_action_and_value AgentFixture.torch_midpoint self
          [[XFloat.Fin 0]] (Some action)
          = (tr', Ok (action, logprob, entropy, value))
        ∧ (BetaAgent.BetaSample ∉ tr')
        ∧ BetaAgent.BetaLogProb
            (BetaAgent.inv_scale_by_action_bounds self action) ∈ tr'.
Proof.
  cbv zeta. eexists _, _, _, _, _. split; [reflexivity|].
  apply (evaluation_reproduces_sampled_logprob AgentFixture.torch_midpoint
           (AgentFixture.agent_with (XFloat.Fin (-0.4)) (XFloat.Fin 0.4)
              (XFloat.Fin 0))
           [[XFloat.Fin 0]] _ _ _ _ _ eq_refl).
Defined.

(** X25 for three environments and two seeds from 1. *)
Lemma seed_arr_cycles_witness :
  ∃ seeds,
    Envs.seed_arr 1 2 3 = Ok seeds
    ∧ length seeds = 3%nat
    ∧ ∀ i j si sj, seeds !! i = Some si → seeds !! j = Some sj →
        (1 <= si < 1 + 2)%Z
        ∧ (si = sj ↔ (Z.of_nat i `mod` 2 = Z.of_nat j `mod` 2)%Z).
Proof.
  apply (seed_arr_cycles 1 2 3). lia.
Defined.
